(** * Viewport controller of the interactive world map ([Script/map.js])

    The script keeps a transform (scale, translateX, translateY), a drag state
    and a pinch baseline in module-level variables and updates them from
    button clicks, mouse, wheel, touch and keyboard events.

    The module-level variables become the fields of [State]; every function of
    the script becomes a function on [State].  What the browser supplies when
    the script asks for it (bounding boxes, window size) is the [Env] argument.
    A property access on [null]/[undefined] is a [TypeError] result.

    JavaScript numbers are IEEE-754 binary64 values.  The model is written
    once over an interface of the arithmetic the script uses ([Arith],
    [Number]); [float_Number] instantiates it with Rocq's primitive binary64
    floats, which is the arithmetic the script runs on. *)

From Stdlib Require Import ZArith QArith Floats Uint63 List String Bool Lia.
Import ListNotations.

Set Implicit Arguments.

(** ** Numbers *)

Declare Scope num_scope.
Delimit Scope num_scope with num.

(** The arithmetic operators of the script: literals, [+], [-], [*], [/] and
    unary minus. *)
Class Arith (N : Type) : Type := {
  lit : Q -> N;
  num_add : N -> N -> N;
  num_sub : N -> N -> N;
  num_mul : N -> N -> N;
  num_div : N -> N -> N;
  num_neg : N -> N
}.

(** The rest of what the script does with numbers: [Math.sqrt], [Math.max],
    [Math.min], [<] and [===]. *)
Class Number (N : Type) : Type := {
  Number_Arith :: Arith N;
  Math_sqrt : N -> N;
  Math_max : N -> N -> N;
  Math_min : N -> N -> N;
  num_lt : N -> N -> bool;
  strict_eq : N -> N -> bool
}.

Notation "x + y" := (num_add x y) : num_scope.
Notation "x - y" := (num_sub x y) : num_scope.
Notation "x * y" := (num_mul x y) : num_scope.
Notation "x / y" := (num_div x y) : num_scope.
Notation "- x" := (num_neg x) : num_scope.
Notation "x <? y" := (num_lt x y) : num_scope.
Notation "x === y" := (strict_eq x y) (at level 70, no associativity) : num_scope.
Notation "x !== y" := (negb (strict_eq x y)) (at level 70, no associativity) : num_scope.

(** *** binary64 *)

Module Binary64.

Definition of_Z (z : Z) : float :=
  match z with
  | Z0 => 0%float
  | Zpos _ => of_uint63 (Uint63.of_Z z)
  | Zneg p => (- of_uint63 (Uint63.of_Z (Zpos p)))%float
  end.

(** A decimal literal denotes the double nearest to it.  Numerator and
    denominator of the literals of the script are small integers, which are
    doubles, and the division of two doubles is correctly rounded. *)
Definition of_Q (q : Q) : float := (of_Z (Qnum q) / of_Z (Zpos (Qden q)))%float.

(** [Math.max] and [Math.min] of ECMAScript: NaN if an argument is NaN, and
    [+0] is larger than [-0]. *)
Definition max (x y : float) : float :=
  if is_nan x || is_nan y then nan
  else if (x <? y)%float then y
  else if (y <? x)%float then x
  else if get_sign x then y else x.

Definition min (x y : float) : float :=
  if is_nan x || is_nan y then nan
  else if (x <? y)%float then x
  else if (y <? x)%float then y
  else if get_sign x then x else y.

Definition nan_sf (x : spec_float) : bool :=
  match x with
  | S754_nan => true
  | _ => false
  end.

Definition finite_sf (x : spec_float) : bool :=
  match x with
  | S754_zero _ | S754_finite _ _ _ => true
  | _ => false
  end.

(** Not NaN. *)
Definition number (x : float) : bool := negb (nan_sf (Prim2SF x)).

(** Neither NaN nor an infinity. *)
Definition finite (x : float) : bool := finite_sf (Prim2SF x).

End Binary64.

Definition float_Arith : Arith float := {|
  lit := Binary64.of_Q;
  num_add := PrimFloat.add;
  num_sub := PrimFloat.sub;
  num_mul := PrimFloat.mul;
  num_div := PrimFloat.div;
  num_neg := PrimFloat.opp
|}.

#[export] Instance float_Number : Number float := {|
  Number_Arith := float_Arith;
  Math_sqrt := PrimFloat.sqrt;
  Math_max := Binary64.max;
  Math_min := Binary64.min;
  num_lt := PrimFloat.ltb;
  strict_eq := PrimFloat.eqb
|}.

(** ** The page and the browser *)

(** The container element: the script only toggles its class [grabbing]. *)
Record Container : Type := mkContainer { grabbing : bool }.

(** The value of [style.transform] the script writes,
    [translate(<x>px, <y>px) scale(<s>)], kept as the three numbers the string
    is built from. *)
Record CssTransform (N : Type) : Type := mkCss {
  css_translateX : N;
  css_translateY : N;
  css_scale : N
}.

(** The wrapper element: [style_transform] is [None] until the script writes
    it. *)
Record Wrapper (N : Type) : Type := mkWrapper { style_transform : option (CssTransform N) }.

(** The zoom readout: the script writes ['Zoom: ' + Math.round(p) + '%'];
    [zoomPercent] keeps [p], the number handed to [Math.round]. *)
Record Display (N : Type) : Type := mkDisplay { zoomPercent : option N }.

(** What [document.getElementById] finds for the three identifiers. *)
Record Document (N : Type) : Type := mkDocument {
  doc_mapContainer : option Container;
  doc_mapWrapper : option (Wrapper N);
  doc_zoomLevel : option (Display N)
}.

Record Rect (N : Type) : Type := mkRect {
  rect_left : N;
  rect_top : N;
  rect_width : N;
  rect_height : N
}.

(** What the browser answers at the time of a call:
    [mapWrapper.getBoundingClientRect()], [mapContainer.getBoundingClientRect()],
    [window.innerWidth] and [window.innerHeight]. *)
Record Env (N : Type) : Type := mkEnv {
  wrapperRect : Rect N;
  containerRect : Rect N;
  innerWidth : N;
  innerHeight : N
}.

Inductive Target : Type := OnContainer | OnWindow | OnDocument.

(** A registered listener: the target and the event type. *)
Definition Listener : Type := (Target * string)%type.

Record MouseEvent (N : Type) : Type := mkMouse { button : Z; clientX : N; clientY : N }.
Record WheelEvent (N : Type) : Type := mkWheel { deltaY : N; wheelX : N; wheelY : N }.
Record Touch (N : Type) : Type := mkTouch { touchX : N; touchY : N }.
Record TouchEvent (N : Type) : Type := mkTouches { touches : list (Touch N) }.
Record KeyboardEvent : Type := mkKey { key : string }.

(** ** State *)

Record State (N : Type) : Type := mkState {
  scale : N;
  translateX : N;
  translateY : N;
  isDragging : bool;
  dragStartX : N;
  dragStartY : N;
  dragOriginX : N;
  dragOriginY : N;
  lastPinchDist : N;
  mapContainer : option Container;
  mapWrapper : option (Wrapper N);
  zoomDisplay : option (Display N);
  listeners : list Listener
}.

(** Results of code that may dereference [null] or [undefined]. *)
Inductive Result (A : Type) : Type :=
| Ok (a : A)
| TypeError.
Arguments TypeError {A}.

Definition bind {A B : Type} (r : Result A) (k : A -> Result B) : Result B :=
  match r with
  | Ok a => k a
  | TypeError => TypeError
  end.

Notation "x <- r ;; k" := (bind r (fun x => k))
  (at level 61, r at next level, right associativity).

(** [o.p] where [o] may be [null] or [undefined]. *)
Definition deref {A : Type} (o : option A) : Result A :=
  match o with
  | Some a => Ok a
  | None => TypeError
  end.

Section Assignments.
Context {N : Type}.

Definition set_scale (v : N) (s : State N) : State N :=
  mkState v (translateX s) (translateY s) (isDragging s) (dragStartX s) (dragStartY s)
    (dragOriginX s) (dragOriginY s) (lastPinchDist s) (mapContainer s) (mapWrapper s)
    (zoomDisplay s) (listeners s).

Definition set_translateX (v : N) (s : State N) : State N :=
  mkState (scale s) v (translateY s) (isDragging s) (dragStartX s) (dragStartY s)
    (dragOriginX s) (dragOriginY s) (lastPinchDist s) (mapContainer s) (mapWrapper s)
    (zoomDisplay s) (listeners s).

Definition set_translateY (v : N) (s : State N) : State N :=
  mkState (scale s) (translateX s) v (isDragging s) (dragStartX s) (dragStartY s)
    (dragOriginX s) (dragOriginY s) (lastPinchDist s) (mapContainer s) (mapWrapper s)
    (zoomDisplay s) (listeners s).

Definition set_isDragging (v : bool) (s : State N) : State N :=
  mkState (scale s) (translateX s) (translateY s) v (dragStartX s) (dragStartY s)
    (dragOriginX s) (dragOriginY s) (lastPinchDist s) (mapContainer s) (mapWrapper s)
    (zoomDisplay s) (listeners s).

Definition set_dragStartX (v : N) (s : State N) : State N :=
  mkState (scale s) (translateX s) (translateY s) (isDragging s) v (dragStartY s)
    (dragOriginX s) (dragOriginY s) (lastPinchDist s) (mapContainer s) (mapWrapper s)
    (zoomDisplay s) (listeners s).

Definition set_dragStartY (v : N) (s : State N) : State N :=
  mkState (scale s) (translateX s) (translateY s) (isDragging s) (dragStartX s) v
    (dragOriginX s) (dragOriginY s) (lastPinchDist s) (mapContainer s) (mapWrapper s)
    (zoomDisplay s) (listeners s).

Definition set_dragOriginX (v : N) (s : State N) : State N :=
  mkState (scale s) (translateX s) (translateY s) (isDragging s) (dragStartX s)
    (dragStartY s) v (dragOriginY s) (lastPinchDist s) (mapContainer s) (mapWrapper s)
    (zoomDisplay s) (listeners s).

Definition set_dragOriginY (v : N) (s : State N) : State N :=
  mkState (scale s) (translateX s) (translateY s) (isDragging s) (dragStartX s)
    (dragStartY s) (dragOriginX s) v (lastPinchDist s) (mapContainer s) (mapWrapper s)
    (zoomDisplay s) (listeners s).

Definition set_lastPinchDist (v : N) (s : State N) : State N :=
  mkState (scale s) (translateX s) (translateY s) (isDragging s) (dragStartX s)
    (dragStartY s) (dragOriginX s) (dragOriginY s) v (mapContainer s) (mapWrapper s)
    (zoomDisplay s) (listeners s).

Definition set_mapContainer (v : option Container) (s : State N) : State N :=
  mkState (scale s) (translateX s) (translateY s) (isDragging s) (dragStartX s)
    (dragStartY s) (dragOriginX s) (dragOriginY s) (lastPinchDist s) v (mapWrapper s)
    (zoomDisplay s) (listeners s).

Definition set_mapWrapper (v : option (Wrapper N)) (s : State N) : State N :=
  mkState (scale s) (translateX s) (translateY s) (isDragging s) (dragStartX s)
    (dragStartY s) (dragOriginX s) (dragOriginY s) (lastPinchDist s) (mapContainer s) v
    (zoomDisplay s) (listeners s).

Definition set_zoomDisplay (v : option (Display N)) (s : State N) : State N :=
  mkState (scale s) (translateX s) (translateY s) (isDragging s) (dragStartX s)
    (dragStartY s) (dragOriginX s) (dragOriginY s) (lastPinchDist s) (mapContainer s)
    (mapWrapper s) v (listeners s).

Definition set_listeners (v : list Listener) (s : State N) : State N :=
  mkState (scale s) (translateX s) (translateY s) (isDragging s) (dragStartX s)
    (dragStartY s) (dragOriginX s) (dragOriginY s) (lastPinchDist s) (mapContainer s)
    (mapWrapper s) (zoomDisplay s) v.

End Assignments.

(** JavaScript truthiness of a reference that is an element, [null] or
    [undefined]. *)
Definition truthy {A : Type} (o : option A) : bool :=
  match o with
  | Some _ => true
  | None => false
  end.

(** ** The script *)

Section Transform.
Context {N : Type} {A : Arith N}.
Local Open Scope num_scope.

(** The values of the module-level variables when the script is loaded; the
    DOM references are still [undefined]. *)
Definition initial : State N :=
  mkState (lit 1) (lit 0) (lit 0) false (lit 0) (lit 0) (lit 0) (lit 0) (lit 0)
    None None None [].

Definition applyTransform (s : State N) : State N :=
  if negb (truthy (mapWrapper s)) then s else
  let s := set_mapWrapper
             (Some (mkWrapper (Some (mkCss (translateX s) (translateY s) (scale s))))) s in
  if truthy (zoomDisplay s)
  then set_zoomDisplay (Some (mkDisplay (Some (scale s * lit 100)))) s
  else s.

Definition zoomAround (env : Env N) (newScale cx cy : N) (s : State N) : State N :=
  if negb (truthy (mapWrapper s)) then s else
  let rect := wrapperRect env in
  let originX := cx - rect_left rect in
  let originY := cy - rect_top rect in
  let scaleDelta := newScale / scale s in
  let s := set_translateX (cx - (rect_left rect + originX * scaleDelta)) s in
  let s := set_translateY (cy - (rect_top rect + originY * scaleDelta)) s in
  let s := set_scale newScale s in
  applyTransform s.

Definition resetView (s : State N) : State N :=
  let s := set_scale (lit 1) s in
  let s := set_translateX (lit 0) s in
  let s := set_translateY (lit 0) s in
  applyTransform s.

Definition onMouseDown (e : MouseEvent N) (s : State N) : Result (State N * bool) :=
  if negb (button e =? 0)%Z then Ok (s, false) else
  let s := set_isDragging true s in
  let s := set_dragStartX (clientX e) s in
  let s := set_dragStartY (clientY e) s in
  let s := set_dragOriginX (translateX s) s in
  let s := set_dragOriginY (translateY s) s in
  c <- deref (mapContainer s) ;;
  let s := set_mapContainer (Some (mkContainer true)) s in
  Ok (s, true).

Definition onMouseMove (e : MouseEvent N) (s : State N) : State N :=
  if negb (isDragging s) then s else
  let s := set_translateX (dragOriginX s + (clientX e - dragStartX s)) s in
  let s := set_translateY (dragOriginY s + (clientY e - dragStartY s)) s in
  applyTransform s.

Definition onMouseUp (s : State N) : Result (State N) :=
  if negb (isDragging s) then Ok s else
  let s := set_isDragging false s in
  c <- deref (mapContainer s) ;;
  Ok (set_mapContainer (Some (mkContainer false)) s).

Definition onTouchEnd (e : TouchEvent N) (s : State N) : State N :=
  if (List.length (touches e) =? 0)%nat then
    let s := set_isDragging false s in
    set_lastPinchDist (lit 0) s
  else s.

(** The listeners [init] registers, in the order of the calls. *)
Definition registered : list Listener :=
  [ (OnContainer, "mousedown"%string); (OnWindow, "mousemove"%string);
    (OnWindow, "mouseup"%string); (OnContainer, "wheel"%string);
    (OnContainer, "touchstart"%string); (OnContainer, "touchmove"%string);
    (OnContainer, "touchend"%string); (OnDocument, "keydown"%string);
    (OnContainer, "contextmenu"%string) ].

Definition init (doc : Document N) (s : State N) : State N :=
  let s := set_mapContainer (doc_mapContainer doc) s in
  let s := set_mapWrapper (doc_mapWrapper doc) s in
  let s := set_zoomDisplay (doc_zoomLevel doc) s in
  if negb (truthy (mapContainer s)) || negb (truthy (mapWrapper s)) then s else
  let s := applyTransform s in
  set_listeners (listeners s ++ registered) s.

(** The script runs [init] once, when the document is ready. *)
Definition boot (doc : Document N) : State N := init doc initial.

(** The Transform of the data model. *)
Definition transform (s : State N) : N * N * N := (scale s, translateX s, translateY s).

End Transform.

Section Controller.
Context {N : Type} {Nm : Number N}.
Local Open Scope num_scope.

Definition MIN_SCALE : N := lit 0.5.
Definition MAX_SCALE : N := lit 5.
Definition ZOOM_STEP : N := lit 0.2.
Definition PAN_STEP : N := lit 30.

Definition clamp (val min max : N) : N := Math_min (Math_max val min) max.

(** The box [zoomIn] and [zoomOut] centre on: the container's, or the
    window's when there is no container. *)
Definition centreRect (env : Env N) (s : State N) : Rect N :=
  if truthy (mapContainer s) then containerRect env
  else mkRect (lit 0) (lit 0) (innerWidth env) (innerHeight env).

Definition zoomIn (env : Env N) (s : State N) : State N :=
  let newScale := clamp (scale s + ZOOM_STEP) MIN_SCALE MAX_SCALE in
  if newScale === scale s then s else
  let rect := centreRect env s in
  zoomAround env newScale (rect_left rect + rect_width rect / lit 2)
    (rect_top rect + rect_height rect / lit 2) s.

Definition zoomOut (env : Env N) (s : State N) : State N :=
  let newScale := clamp (scale s - ZOOM_STEP) MIN_SCALE MAX_SCALE in
  if newScale === scale s then s else
  let rect := centreRect env s in
  zoomAround env newScale (rect_left rect + rect_width rect / lit 2)
    (rect_top rect + rect_height rect / lit 2) s.

Definition onWheel (env : Env N) (e : WheelEvent N) (s : State N) : State N * bool :=
  let delta := if deltaY e <? lit 0 then ZOOM_STEP else - ZOOM_STEP in
  let newScale := clamp (scale s + delta) MIN_SCALE MAX_SCALE in
  (if newScale !== scale s then zoomAround env newScale (wheelX e) (wheelY e) s else s,
   true).

Definition getTouchDist (ts : list (Touch N)) : Result N :=
  t0 <- deref (nth_error ts 0) ;;
  t1 <- deref (nth_error ts 1) ;;
  let dx := touchX t0 - touchX t1 in
  let dy := touchY t0 - touchY t1 in
  Ok (Math_sqrt (dx * dx + dy * dy)).

Definition onTouchStart (e : TouchEvent N) (s : State N) : Result (State N) :=
  if (List.length (touches e) =? 1)%nat then
    let s := set_isDragging true s in
    t0 <- deref (nth_error (touches e) 0) ;;
    let s := set_dragStartX (touchX t0) s in
    let s := set_dragStartY (touchY t0) s in
    let s := set_dragOriginX (translateX s) s in
    let s := set_dragOriginY (translateY s) s in
    Ok s
  else if (List.length (touches e) =? 2)%nat then
    let s := set_isDragging false s in
    dist <- getTouchDist (touches e) ;;
    Ok (set_lastPinchDist dist s)
  else Ok s.

Definition onTouchMove (env : Env N) (e : TouchEvent N) (s : State N)
  : Result (State N * bool) :=
  if (List.length (touches e) =? 1)%nat && isDragging s then
    t0 <- deref (nth_error (touches e) 0) ;;
    let s := set_translateX (dragOriginX s + (touchX t0 - dragStartX s)) s in
    let s := set_translateY (dragOriginY s + (touchY t0 - dragStartY s)) s in
    Ok (applyTransform s, true)
  else if (List.length (touches e) =? 2)%nat then
    dist <- getTouchDist (touches e) ;;
    let pinchDelta := (dist - lastPinchDist s) / lit 200 in
    let newScale := clamp (scale s + pinchDelta) MIN_SCALE MAX_SCALE in
    t0 <- deref (nth_error (touches e) 0) ;;
    t1 <- deref (nth_error (touches e) 1) ;;
    let midX := (touchX t0 + touchX t1) / lit 2 in
    let midY := (touchY t0 + touchY t1) / lit 2 in
    let s := zoomAround env newScale midX midY s in
    Ok (set_lastPinchDist dist s, true)
  else Ok (s, true).

(** The second component tells whether [e.preventDefault()] was called. *)
Definition onKeyDown (env : Env N) (e : KeyboardEvent) (s : State N) : State N * bool :=
  if negb (truthy (mapContainer s)) then (s, false) else
  let k := key e in
  if (k =? "+")%string || (k =? "=")%string then (zoomIn env s, true)
  else if (k =? "-")%string || (k =? "_")%string then (zoomOut env s, true)
  else if (k =? "0")%string then (resetView s, true)
  else if (k =? "ArrowUp")%string then
    (applyTransform (set_translateY (translateY s + PAN_STEP) s), true)
  else if (k =? "ArrowDown")%string then
    (applyTransform (set_translateY (translateY s - PAN_STEP) s), true)
  else if (k =? "ArrowLeft")%string then
    (applyTransform (set_translateX (translateX s + PAN_STEP) s), true)
  else if (k =? "ArrowRight")%string then
    (applyTransform (set_translateX (translateX s - PAN_STEP) s), true)
  else (s, false).

(** *** The page as an event loop *)

(** What can happen to a loaded page: a call of one of the three functions
    the script puts on [window], or an event of a type the script listens
    to. *)
Inductive Event : Type :=
| CallZoomIn
| CallZoomOut
| CallResetView
| MouseDown (e : MouseEvent N)
| MouseMove (e : MouseEvent N)
| MouseUp
| Wheel (e : WheelEvent N)
| TouchStart (e : TouchEvent N)
| TouchMove (e : TouchEvent N)
| TouchEnd (e : TouchEvent N)
| KeyDown (e : KeyboardEvent)
| ContextMenu.

Definition target_eqb (a b : Target) : bool :=
  match a, b with
  | OnContainer, OnContainer | OnWindow, OnWindow | OnDocument, OnDocument => true
  | _, _ => false
  end.

Definition listening (t : Target) (type : string) (s : State N) : bool :=
  existsb (fun l => target_eqb (fst l) t && (snd l =? type)%string) (listeners s).

(** One turn of the event loop: an event runs its handler when a listener
    for it is registered, and is ignored otherwise. *)
Definition deliver (env : Env N) (ev : Event) (s : State N) : Result (State N) :=
  match ev with
  | CallZoomIn => Ok (zoomIn env s)
  | CallZoomOut => Ok (zoomOut env s)
  | CallResetView => Ok (resetView s)
  | MouseDown e =>
      if listening OnContainer "mousedown" s
      then r <- onMouseDown e s ;; Ok (fst r) else Ok s
  | MouseMove e =>
      if listening OnWindow "mousemove" s then Ok (onMouseMove e s) else Ok s
  | MouseUp =>
      if listening OnWindow "mouseup" s then onMouseUp s else Ok s
  | Wheel e =>
      if listening OnContainer "wheel" s then Ok (fst (onWheel env e s)) else Ok s
  | TouchStart e =>
      if listening OnContainer "touchstart" s then onTouchStart e s else Ok s
  | TouchMove e =>
      if listening OnContainer "touchmove" s
      then r <- onTouchMove env e s ;; Ok (fst r) else Ok s
  | TouchEnd e =>
      if listening OnContainer "touchend" s then Ok (onTouchEnd e s) else Ok s
  | KeyDown e =>
      if listening OnDocument "keydown" s then Ok (fst (onKeyDown env e s)) else Ok s
  | ContextMenu => Ok s
  end.

(** Events are handled one after the other, in the order of arrival; each
    comes with what the browser reports at that time. *)
Fixpoint run (evs : list (Env N * Event)) (s : State N) : Result (State N) :=
  match evs with
  | [] => Ok s
  | (env, ev) :: evs' => s' <- deliver env ev s ;; run evs' s'
  end.

End Controller.

Arguments Event N : clear implicits.

(** The keys [onKeyDown] has a case for. *)
Definition handled_keys : list string :=
  [ "+"; "="; "-"; "_"; "0"; "ArrowUp"; "ArrowDown"; "ArrowLeft"; "ArrowRight" ]%string.

(** ** The script on binary64 *)

(** The invariant of the data model: MIN_SCALE <= scale <= MAX_SCALE. *)
Definition in_range (x : float) : bool :=
  (MIN_SCALE <=? x)%float && (x <=? MAX_SCALE)%float.

(** The touch events of a touch screen: two touch points are a finite
    distance apart.  (Coordinates beyond 1e154 would make [dx * dx]
    overflow.) *)
Definition finite_pinch (ev : Event float) : bool :=
  match ev with
  | TouchStart e | TouchMove e =>
      if (List.length (touches e) =? 2)%nat then
        match getTouchDist (touches e) with
        | Ok dist => Binary64.finite dist
        | TypeError => true
        end
      else true
  | _ => true
  end.

(** The states of a loaded page: the one [init] leaves, and those the event
    loop reaches from it. *)
Inductive reachable : State float -> Prop :=
| reachable_boot (doc : Document float) : reachable (boot doc)
| reachable_deliver (s s' : State float) (env : Env float) (ev : Event float) :
    reachable s -> finite_pinch ev = true -> deliver env ev s = Ok s' -> reachable s'.

(** What the proofs carry along the event loop: the scale is in range, the
    pinch baseline is finite, and listeners are registered only on a page
    that has the container. *)
Definition invariant (s : State float) : Prop :=
  in_range (scale s) = true /\
  Binary64.finite (lastPinchDist s) = true /\
  (listeners s = [] \/ truthy (mapContainer s) = true).

(** ** The wrapper on the page *)

(** What the script does not see of the page: the corner and the size of the
    wrapper's box when it carries no transform, and the transform origin, as
    an offset from that corner ((0, 0) for [transform-origin: 0 0], half the
    size for the CSS default). *)
Record Layout (N : Type) : Type := mkLayout {
  box_left : N;
  box_top : N;
  box_width : N;
  box_height : N;
  origin_x : N;
  origin_y : N
}.

Section Rendering.
Context {N : Type} {A : Arith N}.
Local Open Scope num_scope.

(** Where the browser shows the content point at offset [p] from the
    wrapper's corner, when the wrapper carries
    [translate(tx, ty) scale(s)]: the transform maps a point p of the
    wrapper to origin + translate + s * (p - origin). *)
Definition shown (l : Layout N) (css : CssTransform N) (p : N * N) : N * N :=
  (box_left l + (origin_x l + (css_translateX css + css_scale css * (fst p - origin_x l))),
   box_top l + (origin_y l + (css_translateY css + css_scale css * (snd p - origin_y l)))).

(** The box [getBoundingClientRect] reports for a wrapper with a positive
    scale: the image of its box under the transform. *)
Definition boundingBox (l : Layout N) (css : CssTransform N) : Rect N :=
  mkRect (fst (shown l css (lit 0, lit 0))) (snd (shown l css (lit 0, lit 0)))
    (css_scale css * box_width l) (css_scale css * box_height l).

(** The transform the wrapper carries. *)
Definition style (s : State N) : option (CssTransform N) :=
  match mapWrapper s with
  | Some w => style_transform w
  | None => None
  end.

(** [env] is what the browser answers on a page laid out by [l] while the
    wrapper carries the transform the script wrote last. *)
Definition rendered (l : Layout N) (s : State N) (env : Env N) : Prop :=
  option_map (boundingBox l) (style s) = Some (wrapperRect env).

(** Where the page shows a content point in state [s]. *)
Definition shownAt (l : Layout N) (s : State N) (p : N * N) : option (N * N) :=
  option_map (fun css => shown l css p) (style s).

End Rendering.

(** *** Sample pages *)

Module Sample.

(** A page with the container, the wrapper and the zoom readout. *)
Definition mapPage : Document float :=
  mkDocument (Some (mkContainer false)) (Some (mkWrapper None)) (Some (mkDisplay None)).

(** A page with the wrapper but no container. *)
Definition wrapperOnly : Document float :=
  mkDocument None (Some (mkWrapper None)) None.

(** A page without the map. *)
Definition otherPage : Document float := mkDocument None None None.

(** The wrapper box at (10, 20), 800 by 600; the container box at (0, 0),
    1000 by 700; a 1920 by 1080 window. *)
Definition env : Env float :=
  mkEnv (mkRect 10 20 800 600)%float (mkRect 0 0 1000 700)%float 1920%float 1080%float.

(** Two fingers 100 pixels apart, and the first of them alone. *)
Definition twoTouches : TouchEvent float :=
  mkTouches [mkTouch 300 200; mkTouch 400 200]%float.

Definition oneTouch : TouchEvent float := mkTouches [mkTouch 300 200]%float.

(** Three fingers. *)
Definition threeTouches : TouchEvent float :=
  mkTouches [mkTouch 300 200; mkTouch 400 200; mkTouch 350 300]%float.

(** Two fingers 200 pixels apart. *)
Definition spread : TouchEvent float := mkTouches [mkTouch 0 0; mkTouch 200 0]%float.

(** Two fingers, one of them far beyond any screen. *)
Definition offScreen : TouchEvent float := mkTouches [mkTouch 0x1p+600 0; mkTouch 0 0]%float.

(** A button click, a wheel turn, a pinch and a key press. *)
Definition session : list (Env float * Event float) :=
  [ (env, CallZoomIn); (env, Wheel (mkWheel (-3) 500 350)%float);
    (env, TouchStart twoTouches); (env, TouchMove spread);
    (env, KeyDown (mkKey "-")); (env, CallZoomOut) ].

(** A left-button press at (100, 100) and two moves. *)
Definition press : MouseEvent float := mkMouse 0%Z 100%float 100%float.
Definition move1 : MouseEvent float := mkMouse 0%Z 150%float 130%float.
Definition move2 : MouseEvent float := mkMouse 0%Z 140%float 150%float.

(** A wheel event with no vertical delta. *)
Definition flatWheel : WheelEvent float := mkWheel 0%float 500%float 350%float.

(** The layout of the page [env] belongs to: without a transform the
    wrapper's box is at (10, 20), 800 by 600.  Once with the transform
    origin at the wrapper's corner, once with the CSS default, its
    centre. *)
Definition cornerLayout : Layout float := (mkLayout 10 20 800 600 0 0)%float.
Definition centreLayout : Layout float := (mkLayout 10 20 800 600 400 300)%float.

(** A drag with the mouse from (100, 100) to (150, 130). *)
Definition dragBy_50_30 : list (Env float * Event float) :=
  [ (env, MouseDown press); (env, MouseMove move1); (env, MouseUp) ].

(** What the browser answers after that drag: the wrapper's box has
    followed the translate to (60, 50). *)
Definition pannedEnv : Env float :=
  mkEnv (mkRect 60 50 800 600)%float (mkRect 0 0 1000 700)%float 1920%float 1080%float.

(** A wheel turn towards the user at (500, 350). *)
Definition wheelIn : WheelEvent float := mkWheel (-3)%float 500%float 350%float.

(** The two fingers of [twoTouches], both moved by (10, 5). *)
Definition parallel : TouchEvent float :=
  mkTouches [mkTouch 310 205; mkTouch 410 205]%float.

End Sample.

(** ** Proof tools *)

(** Splits a state into its fields, and by which elements exist and whether
    a drag is on. *)
Ltac cases s :=
  destruct s as [? ? ? [|] ? ? ? ? ? [?|] [?|] [?|] ?]; simpl in *.

(** ** What the further properties speak of *)

Section Observations.
Context {N : Type} {A : Arith N}.
Local Open Scope num_scope.

(** The wrapper shows the transform, and the readout the scale, that the
    variables hold. *)
Definition in_sync (s : State N) : Prop :=
  mapWrapper s
  = Some (mkWrapper (Some (mkCss (translateX s) (translateY s) (scale s)))) /\
  (zoomDisplay s = None \/
   zoomDisplay s = Some (mkDisplay (Some (scale s * lit 100)))).

(** Which of the three elements are resolved. *)
Definition resolved (s : State N) : bool * bool * bool :=
  (truthy (mapContainer s), truthy (mapWrapper s), truthy (zoomDisplay s)).

(** The drag state and the pinch baseline. *)
Definition gesture (s : State N) : bool * (N * N) * (N * N) * N :=
  (isDragging s, (dragStartX s, dragStartY s), (dragOriginX s, dragOriginY s),
   lastPinchDist s).

(** Handlers that use the container unguarded are registered only on a
    page that has it. *)
Definition safe (s : State N) : Prop :=
  listeners s = [] \/ truthy (mapContainer s) = true.

End Observations.

(** The keys that change the scale. *)
Definition zoom_keys : list string := [ "+"; "="; "-"; "_"; "0" ]%string.

(** Events other than touch events. *)
Definition touchless {N : Type} (ev : Event N) : bool :=
  match ev with
  | TouchStart _ | TouchMove _ | TouchEnd _ => false
  | _ => true
  end.

(** The events whose handler may assign the scale: the three calls, the
    wheel, a two-finger move and the zoom keys. *)
Definition rescales {N : Type} (ev : Event N) : bool :=
  match ev with
  | CallZoomIn | CallZoomOut | CallResetView | Wheel _ => true
  | TouchMove e => (List.length (touches e) =? 2)%nat
  | KeyDown e => existsb (String.eqb (key e)) zoom_keys
  | _ => false
  end.

(** *** More sample events *)

Module MoreSamples.

(** A drag with the mouse, a wheel turn in between, and the release. *)
Definition mouseSession : list (Env float * Event float) :=
  [ (Sample.env, MouseDown Sample.press); (Sample.env, MouseMove Sample.move1);
    (Sample.env, Wheel Sample.flatWheel); (Sample.env, KeyDown (mkKey "ArrowUp"));
    (Sample.env, MouseUp) ].

(** One finger at (310, 205), then at (350, 260). *)
Definition slide1 : TouchEvent float := mkTouches [mkTouch 310 205]%float.
Definition slide2 : TouchEvent float := mkTouches [mkTouch 350 260]%float.

(** The two fingers of [Sample.twoTouches], moved by (10, 5). *)
Definition shifted : TouchEvent float := Sample.parallel.

(** The page after a mouse press at (100, 100) and a move to (150, 130). *)
Definition dragging : State float :=
  onMouseMove Sample.move1
    (set_mapContainer (Some (mkContainer true))
       (set_dragStartY 100%float
          (set_dragStartX 100%float (set_isDragging true (boot Sample.mapPage))))).

(** The page after two fingers came down 100 pixels apart. *)
Definition pinching : State float :=
  set_lastPinchDist 100%float (boot Sample.mapPage).

End MoreSamples.

(** ** Facts about binary64 arithmetic *)

Module Binary64Facts.

Import Binary64.

Lemma finite_number (x : float) : finite x = true -> number x = true.
Proof. unfold finite, number. destruct (Prim2SF x); simpl; congruence. Qed.

(** *** Rounding never produces NaN *)

Section Rounding.
Variables prec emax : Z.

Lemma shr_1_nonneg (mrs : shr_record) :
  (0 <= shr_m mrs)%Z -> (0 <= shr_m (shr_1 mrs))%Z.
Proof.
  destruct mrs as [m r t]. simpl.
  destruct m as [|p|p]; [| destruct p |]; simpl; lia.
Qed.

Lemma iter_shr_1_nonneg (p : positive) :
  forall mrs, (0 <= shr_m mrs)%Z -> (0 <= shr_m (iter_pos shr_1 p mrs))%Z.
Proof.
  induction p as [p IH|p IH|]; intros mrs H; simpl.
  - apply IH, IH, shr_1_nonneg, H.
  - apply IH, IH, H.
  - apply shr_1_nonneg, H.
Qed.

Lemma shr_fexp_nonneg (m e : Z) (l : location) :
  (0 <= m)%Z -> (0 <= shr_m (fst (shr_fexp prec emax m e l)))%Z.
Proof.
  intros H. unfold shr_fexp, shr.
  assert (H0 : (0 <= shr_m (shr_record_of_loc m l))%Z)
    by (destruct l as [|[| |]]; exact H).
  destruct (fexp prec emax (Zdigits2 m + e) - e)%Z; simpl; trivial.
  apply iter_shr_1_nonneg, H0.
Qed.

Lemma round_nearest_even_nonneg (m : Z) (l : location) :
  (0 <= m)%Z -> (0 <= round_nearest_even m l)%Z.
Proof.
  intros H. destruct l as [|[| |]]; simpl; trivial; [destruct (Z.even m) |]; lia.
Qed.

Lemma binary_round_aux_number (sx : bool) (mx ex : Z) (lx : location) :
  (0 <= mx)%Z -> nan_sf (binary_round_aux prec emax sx mx ex lx) = false.
Proof.
  intros H. unfold binary_round_aux.
  pose proof (shr_fexp_nonneg ex lx H) as H1.
  destruct (shr_fexp prec emax mx ex lx) as [mrs' e']. simpl in H1.
  pose proof (shr_fexp_nonneg e' loc_Exact
                (round_nearest_even_nonneg (loc_of_shr_record mrs') H1)) as H2.
  destruct (shr_fexp prec emax _ e' loc_Exact) as [mrs'' e'']. simpl in H2.
  destruct (shr_m mrs'') as [|p|p]; [reflexivity | | lia].
  destruct (e'' <=? emax - prec)%Z; reflexivity.
Qed.

Lemma binary_normalize_number (m e : Z) (szero : bool) :
  nan_sf (binary_normalize prec emax m e szero) = false.
Proof.
  destruct m as [|p|p]; simpl; trivial; unfold binary_round;
    destruct (shl_align _ _ _) as [mz ez]; apply binary_round_aux_number; lia.
Qed.

Lemma SFadd_number (x y : spec_float) :
  finite_sf x = true -> nan_sf y = false -> nan_sf (SFadd prec emax x y) = false.
Proof.
  destruct x as [sx| |  |sx mx ex], y as [sy|sy| |sy my ey]; simpl; try congruence;
    intros _ _; try (destruct sx, sy; reflexivity).
  apply binary_normalize_number.
Qed.

Lemma SFsub_number (x y : spec_float) :
  finite_sf x = true -> finite_sf y = true -> nan_sf (SFsub prec emax x y) = false.
Proof.
  destruct x as [sx| |  |sx mx ex], y as [sy|sy| |sy my ey]; simpl; try congruence;
    intros _ _; try (destruct sx, sy; reflexivity).
  apply binary_normalize_number.
Qed.

Lemma SFdiv_number (x : spec_float) (sy : bool) (my : positive) (ey : Z) :
  nan_sf x = false -> nan_sf (SFdiv prec emax x (S754_finite sy my ey)) = false.
Proof.
  destruct x as [sx|sx| |sx mx ex]; simpl; try congruence. intros _.
  unfold SFdiv_core_binary.
  set (m' := match _ with Z0 => _ | Zpos _ => _ | Zneg _ => _ end).
  assert (Hm : (0 <= m')%Z).
  { subst m'. destruct (_ - _ - _)%Z; try lia. apply Z.shiftl_nonneg. lia. }
  pose proof (Z.div_pos m' (Zpos my) Hm ltac:(lia)) as Hq.
  unfold Z.div in Hq. destruct (Z.div_eucl m' (Z.pos my)) as [q r]. 
  apply binary_round_aux_number. exact Hq.
Qed.

Lemma SFadd_opp (x y : spec_float) :
  SFadd prec emax x (SFopp y) = SFsub prec emax x y.
Proof.
  destruct x as [sx|sx| |sx mx ex], y as [sy|sy| |sy my ey]; simpl; trivial;
    destruct sx, sy; reflexivity.
Qed.

End Rounding.

(** *** Comparison *)

Lemma SFcompare_antisym (x y : spec_float) (c : comparison) :
  SFcompare x y = Some c -> SFcompare y x = Some (CompOpp c).
Proof.
  destruct x as [sx|sx| |sx mx ex], y as [sy|sy| |sy my ey]; simpl;
    try discriminate; intros [= <-];
    try (destruct sx; reflexivity); try (destruct sy; reflexivity);
    try (destruct sx, sy; reflexivity).
  destruct sx, sy; trivial; rewrite (Z.compare_antisym ex ey);
    destruct (ex ?= ey)%Z; simpl; trivial;
    rewrite (ZC4 my mx); destruct (Pos.compare_cont Eq mx my); reflexivity.
Qed.

Lemma SFcompare_number (x y : spec_float) :
  nan_sf x = false -> nan_sf y = false -> exists c, SFcompare x y = Some c.
Proof.
  destruct x as [sx|sx| |sx mx ex], y as [sy|sy| |sy my ey]; simpl;
    try discriminate; intros _ _; eexists; reflexivity.
Qed.

Lemma SFcompare_refl (x : spec_float) : nan_sf x = false -> SFcompare x x = Some Eq.
Proof.
  destruct x as [sx|sx| |sx mx ex]; simpl; try discriminate; intros _; trivial.
  - destruct sx; reflexivity.
  - destruct sx; rewrite Z.compare_refl, Pos.compare_cont_refl; reflexivity.
Qed.

Lemma is_nan_number (x : float) : is_nan x = negb (number x).
Proof.
  unfold is_nan, number. rewrite FloatAxioms.eqb_spec. unfold SFeqb.
  destruct (nan_sf (Prim2SF x)) eqn:E.
  - destruct (Prim2SF x); try discriminate. reflexivity.
  - rewrite (SFcompare_refl _ E). reflexivity.
Qed.

Lemma ltb_leb (x y : float) : (x <? y)%float = true -> (x <=? y)%float = true.
Proof.
  rewrite FloatAxioms.ltb_spec, FloatAxioms.leb_spec. unfold SFltb, SFleb.
  destruct (SFcompare (Prim2SF x) (Prim2SF y)) as [[| |]|]; congruence.
Qed.

Lemma not_ltb_leb (x y : float) :
  number x = true -> number y = true -> (x <? y)%float = false -> (y <=? x)%float = true.
Proof.
  unfold number. rewrite FloatAxioms.ltb_spec, FloatAxioms.leb_spec. unfold SFltb, SFleb.
  intros Hx Hy. apply negb_true_iff in Hx, Hy.
  destruct (SFcompare_number _ _ Hx Hy) as [c Hc].
  rewrite Hc, (SFcompare_antisym _ _ Hc). destruct c; simpl; congruence.
Qed.

Lemma leb_refl (x : float) : number x = true -> (x <=? x)%float = true.
Proof.
  unfold number. rewrite FloatAxioms.leb_spec. unfold SFleb. intros Hx.
  apply negb_true_iff in Hx. rewrite (SFcompare_refl _ Hx). reflexivity.
Qed.

Lemma leb_number (x y : float) :
  (x <=? y)%float = true -> number x = true /\ number y = true.
Proof.
  unfold number. rewrite FloatAxioms.leb_spec. unfold SFleb.
  destruct (Prim2SF x), (Prim2SF y); simpl; try discriminate; auto.
Qed.

(** Equal doubles are the same double, zeros apart. *)
Lemma eqb_finite_eq (x y : float) (s : bool) (m : positive) (e : Z) :
  Prim2SF y = S754_finite s m e -> (x =? y)%float = true -> x = y.
Proof.
  intros Hy. rewrite FloatAxioms.eqb_spec, Hy. unfold SFeqb. intros H.
  apply Prim2SF_inj. rewrite Hy.
  destruct (Prim2SF x) as [sx|sx| |sx mx ex]; simpl in H;
    try discriminate; try (destruct sx; discriminate);
    try (destruct s; discriminate).
  destruct sx, s; try discriminate;
    destruct (ex ?= e)%Z eqn:Ee; try discriminate;
    apply Z.compare_eq in Ee; subst ex;
    destruct (Pos.compare_cont Eq mx m) eqn:Em; try discriminate;
    apply Pos.compare_eq in Em; subst mx; reflexivity.
Qed.

Lemma eqb_zero_not_ltb (x : float) :
  (x =? 0)%float = true -> (x <? 0)%float = false.
Proof.
  rewrite FloatAxioms.eqb_spec, FloatAxioms.ltb_spec. unfold SFeqb, SFltb.
  destruct (SFcompare (Prim2SF x) (Prim2SF 0)) as [[| |]|]; congruence.
Qed.

Lemma ltb_asym (x y : float) : (x <? y)%float = true -> (y <? x)%float = false.
Proof.
  rewrite !FloatAxioms.ltb_spec. unfold SFltb.
  destruct (SFcompare (Prim2SF x) (Prim2SF y)) as [c|] eqn:E; [|discriminate].
  rewrite (SFcompare_antisym _ _ E). destruct c; simpl; congruence.
Qed.

Lemma add_opp (x y : float) : (x + - y)%float = (x - y)%float.
Proof.
  apply Prim2SF_inj.
  rewrite FloatAxioms.add_spec, FloatAxioms.opp_spec, FloatAxioms.sub_spec.
  apply SFadd_opp.
Qed.

(** *** The operators *)

Lemma add_number (x y : float) :
  finite x = true -> number y = true -> number (x + y) = true.
Proof.
  unfold finite, number. intros Hx Hy. apply negb_true_iff in Hy.
  rewrite FloatAxioms.add_spec. apply negb_true_iff, SFadd_number; assumption.
Qed.

Lemma sub_number (x y : float) :
  finite x = true -> finite y = true -> number (x - y) = true.
Proof.
  unfold finite, number. intros Hx Hy.
  rewrite FloatAxioms.sub_spec. apply negb_true_iff, SFsub_number; assumption.
Qed.

Lemma div_number (x y : float) (s : bool) (m : positive) (e : Z) :
  Prim2SF y = S754_finite s m e -> number x = true -> number (x / y) = true.
Proof.
  unfold number. intros Hy Hx. apply negb_true_iff in Hx.
  rewrite FloatAxioms.div_spec, Hy. apply negb_true_iff, SFdiv_number; assumption.
Qed.

(** *** [Math.max], [Math.min] *)

Lemma max_cases (x y : float) :
  number x = true -> number y = true ->
  (Binary64.max x y = x /\ (y <=? x)%float = true) \/
  (Binary64.max x y = y /\ (x <=? y)%float = true).
Proof.
  intros Hx Hy. unfold Binary64.max.
  rewrite !is_nan_number, Hx, Hy. simpl.
  destruct (x <? y)%float eqn:Exy.
  - right. split; trivial. apply ltb_leb, Exy.
  - destruct (y <? x)%float eqn:Eyx.
    + left. split; trivial. apply ltb_leb, Eyx.
    + destruct (get_sign x); [right | left]; split; trivial;
        apply not_ltb_leb; assumption.
Qed.

Lemma min_cases (x y : float) :
  number x = true -> number y = true ->
  (Binary64.min x y = x /\ (x <=? y)%float = true) \/
  (Binary64.min x y = y /\ (y <=? x)%float = true).
Proof.
  intros Hx Hy. unfold Binary64.min.
  rewrite !is_nan_number, Hx, Hy. simpl.
  destruct (x <? y)%float eqn:Exy.
  - left. split; trivial. apply ltb_leb, Exy.
  - destruct (y <? x)%float eqn:Eyx.
    + right. split; trivial. apply ltb_leb, Eyx.
    + destruct (get_sign x); [left | right]; split; trivial;
        apply not_ltb_leb; assumption.
Qed.

End Binary64Facts.

(** ** Further facts about binary64 arithmetic *)

Module Binary64Order.

Import Binary64 Binary64Facts.

Lemma SFleb_trans (x y z : spec_float) :
  SFleb x y = true -> SFleb y z = true -> SFleb x z = true.
Proof.
  unfold SFleb, SFcompare.
  destruct x as [sx|sx| |sx mx ex], y as [sy|sy| |sy my ey], z as [sz|sz| |sz mz ez];
    try discriminate; trivial;
    destruct sx; try discriminate; trivial;
    destruct sy; try discriminate; trivial;
    destruct sz; try discriminate; trivial;
    change (PosDef.Pos.compare_cont Eq) with Pos.compare;
    destruct (Z.compare_spec ex ey); try discriminate;
    destruct (Z.compare_spec ey ez); try discriminate;
    destruct (Z.compare_spec ex ez); try lia; trivial;
    destruct (Pos.compare_spec mx my); try discriminate;
    destruct (Pos.compare_spec my mz); try discriminate;
    destruct (Pos.compare_spec mx mz); simpl; trivial; lia.
Qed.

Lemma leb_trans (x y z : float) :
  (x <=? y)%float = true -> (y <=? z)%float = true -> (x <=? z)%float = true.
Proof. rewrite !FloatAxioms.leb_spec. apply SFleb_trans. Qed.

Lemma leb_antisym (x y : float) :
  (x <=? y)%float = true -> (y <=? x)%float = true -> (x =? y)%float = true.
Proof.
  rewrite !FloatAxioms.leb_spec, FloatAxioms.eqb_spec. unfold SFleb, SFeqb.
  destruct (SFcompare (Prim2SF x) (Prim2SF y)) as [c|] eqn:E; [|discriminate].
  rewrite (SFcompare_antisym _ _ E). destruct c; simpl; congruence.
Qed.

Lemma eqb_refl (x : float) : number x = true -> (x =? x)%float = true.
Proof.
  intros H. apply leb_antisym; apply leb_refl, H.
Qed.

(** *** Swapping the operands of a subtraction *)

Section Swap.
Variables prec emax : Z.

Lemma binary_round_aux_negb (sx : bool) (mx ex : Z) (lx : location) :
  binary_round_aux prec emax (negb sx) mx ex lx
  = SFopp (binary_round_aux prec emax sx mx ex lx).
Proof.
  unfold binary_round_aux.
  destruct (shr_fexp prec emax mx ex lx) as [mrs' e'].
  destruct (shr_fexp prec emax _ e' loc_Exact) as [mrs'' e''].
  destruct (shr_m mrs''); trivial. destruct (e'' <=? emax - prec)%Z; reflexivity.
Qed.

Lemma binary_normalize_opp (m e : Z) :
  binary_normalize prec emax (- m) e false
  = SFopp (binary_normalize prec emax m e false) \/
  (binary_normalize prec emax (- m) e false = S754_zero false /\
   binary_normalize prec emax m e false = S754_zero false).
Proof.
  destruct m as [|p|p]; cbn [Z.opp binary_normalize]; [right; split; reflexivity | |];
    left; unfold binary_round; destruct (shl_align _ _ _) as [mz ez].
  - apply (binary_round_aux_negb false).
  - rewrite <- (binary_round_aux_negb true). reflexivity.
Qed.

Lemma SFsub_swap (x y : spec_float) :
  SFsub prec emax y x = SFopp (SFsub prec emax x y) \/
  (SFsub prec emax y x = S754_zero false /\ SFsub prec emax x y = S754_zero false).
Proof.
  destruct x as [sx|sx| |sx mx ex], y as [sy|sy| |sy my ey]; cbn [SFsub SFopp];
    try (left; reflexivity);
    try (destruct sx, sy; (left; reflexivity) || (right; split; reflexivity)).
  rewrite (Z.min_comm ey ex).
  match goal with
  | |- context [SFopp (binary_normalize _ _ (?a - ?b)%Z ?e false)] =>
      replace (b - a)%Z with (- (a - b))%Z by lia;
      destruct (binary_normalize_opp (a - b) e) as [H|[H1 H2]];
      [left; exact H | right; split; assumption]
  end.
Qed.

Lemma SFmul_opp_opp (x : spec_float) :
  SFmul prec emax (SFopp x) (SFopp x) = SFmul prec emax x x.
Proof. destruct x as [[|]|[|]| |[|] m e]; reflexivity. Qed.

Lemma SFsub_square_swap (x y : spec_float) :
  SFmul prec emax (SFsub prec emax y x) (SFsub prec emax y x)
  = SFmul prec emax (SFsub prec emax x y) (SFsub prec emax x y).
Proof.
  destruct (SFsub_swap x y) as [H|[H1 H2]].
  - rewrite H. apply SFmul_opp_opp.
  - rewrite H1, H2. reflexivity.
Qed.

End Swap.

(** Equal numbers are the same double unless they are zeros or infinite
    (NaN equals nothing). *)
Lemma nonzero_eqb_eq (x y : float) :
  number y = true -> (y =? 0)%float = false -> (x =? y)%float = true -> x = y.
Proof.
  unfold number. rewrite !FloatAxioms.eqb_spec. unfold SFeqb. intros Hn Hz H.
  apply Prim2SF_inj. change (Prim2SF 0) with (S754_zero false) in Hz.
  destruct (Prim2SF x) as [sx|sx| |sx mx ex], (Prim2SF y) as [sy|sy| |sy my ey];
    try discriminate; unfold SFcompare in *;
    try (destruct sx; discriminate); try (destruct sy; discriminate).
  - destruct sx, sy; try discriminate; reflexivity.
  - destruct sx, sy; try discriminate;
      destruct (ex ?= ey)%Z eqn:Ee; try discriminate;
      apply Z.compare_eq in Ee; subst ex;
      destruct (PosDef.Pos.compare_cont Eq mx my) eqn:Em; try discriminate;
      apply Pos.compare_eq in Em; subst mx; reflexivity.
Qed.

Lemma sub_diag (x : float) : finite x = true -> Prim2SF (x - x) = S754_zero false.
Proof.
  unfold finite. rewrite FloatAxioms.sub_spec.
  destruct (Prim2SF x) as [s|s| |s m e]; try discriminate; intros _.
  - destruct s; reflexivity.
  - unfold SF64sub. cbn [SFsub]. rewrite Z.sub_diag. reflexivity.
Qed.

Lemma zero_div_200 (x : float) :
  Prim2SF x = S754_zero false -> Prim2SF (x / 200) = S754_zero false.
Proof.
  intros H. rewrite FloatAxioms.div_spec, H.
  change (Prim2SF 200) with (S754_finite false 7036874417766400 (-45)). reflexivity.
Qed.

Lemma add_zero (x z : float) (s sz : bool) (m : positive) (e : Z) :
  Prim2SF x = S754_finite s m e -> Prim2SF z = S754_zero sz -> (x + z)%float = x.
Proof.
  intros Hx Hz. apply Prim2SF_inj. rewrite FloatAxioms.add_spec, Hx, Hz. reflexivity.
Qed.

Lemma sub_square_swap (x y : float) :
  ((y - x) * (y - x))%float = ((x - y) * (x - y))%float.
Proof.
  apply Prim2SF_inj. rewrite !FloatAxioms.mul_spec, !FloatAxioms.sub_spec.
  apply SFsub_square_swap.
Qed.

End Binary64Order.

(** ** How binary64 rounds an integer *)

Module Binary64Rounding.
Import Binary64 Binary64Facts Binary64Order.
Local Open Scope Z_scope.

Lemma digits2_pos_bounds (p : positive) :
  2 ^ (Zpos (digits2_pos p) - 1) <= Zpos p < 2 ^ Zpos (digits2_pos p).
Proof.
  induction p as [p IH|p IH|]; cbn [digits2_pos]; [| |cbn; lia];
    rewrite Pos2Z.inj_succ;
    replace (Z.succ (Zpos (digits2_pos p)) - 1) with (Z.succ (Zpos (digits2_pos p) - 1)) by lia;
    rewrite !Z.pow_succ_r by lia; lia.
Qed.

Lemma digits2_pos_unique (p : positive) (k : Z) :
  2 ^ (k - 1) <= Zpos p < 2 ^ k -> Zpos (digits2_pos p) = k.
Proof.
  intros [L U]. pose proof (digits2_pos_bounds p) as [L' U'].
  assert (K : 0 < k).
  { destruct (Z.ltb_spec 0 k); trivial. rewrite Z.pow_neg_r in L by lia.
    assert (2 ^ k <= 2 ^ 0) by (destruct (Z.eq_dec k 0); [subst; lia|rewrite Z.pow_neg_r by lia; cbn; lia]).
    cbn in *. lia. }
  destruct (Z.lt_trichotomy (Zpos (digits2_pos p)) k) as [C|[C|C]]; trivial; exfalso.
  - assert (2 ^ Zpos (digits2_pos p) <= 2 ^ (k - 1)) by (apply Z.pow_le_mono_r; lia). lia.
  - assert (2 ^ k <= 2 ^ (Zpos (digits2_pos p) - 1)) by (apply Z.pow_le_mono_r; lia). lia.
Qed.

Lemma shr_1_div2 (mrs : shr_record) :
  0 <= shr_m mrs -> shr_m (shr_1 mrs) = shr_m mrs / 2.
Proof.
  destruct mrs as [m r t]. cbn [shr_m shr_1]. intros H.
  rewrite <- Z.div2_div. destruct m as [|[p|p|]|p]; try reflexivity. lia.
Qed.

Lemma iter_shr_1_div (n : positive) :
  forall mrs, 0 <= shr_m mrs -> shr_m (iter_pos shr_1 n mrs) = shr_m mrs / 2 ^ Zpos n.
Proof.
  induction n as [n IH|n IH|]; intros mrs H; cbn [iter_pos].
  - pose proof (shr_1_nonneg mrs H) as H1.
    pose proof (iter_shr_1_nonneg n _ H1) as H2.
    rewrite (IH _ H2), (IH _ H1), (shr_1_div2 _ H).
    assert (P : 0 < 2 ^ Zpos n) by (apply Z.pow_pos_nonneg; lia).
    rewrite !Z.div_div by lia. f_equal.
    replace (Zpos n~1) with (Zpos n + Zpos n + 1) by lia.
    rewrite !Z.pow_add_r by lia. change (2 ^ 1) with 2. lia.
  - pose proof (iter_shr_1_nonneg n _ H) as H2.
    rewrite (IH _ H2), (IH _ H).
    assert (P : 0 < 2 ^ Zpos n) by (apply Z.pow_pos_nonneg; lia).
    rewrite Z.div_div by lia. f_equal.
    replace (Zpos n~0) with (Zpos n + Zpos n) by lia.
    rewrite Z.pow_add_r by lia. reflexivity.
  - rewrite (shr_1_div2 _ H). reflexivity.
Qed.

Lemma round_nearest_even_bounds (m : Z) (l : location) :
  m <= round_nearest_even m l <= m + 1.
Proof.
  destruct l as [|[| |]]; cbn [round_nearest_even]; try lia.
  destruct (Z.even m); lia.
Qed.

(** Rounding a positive integer with more than 53 digits: the result is
    below every double that exceeds the integer by more than one unit in
    the last place kept. *)
Lemma binary_round_aux_lt (p mx : positive) (e ex : Z) (n : positive) :
  Zpos (digits2_pos p) = 53 + Zpos n ->
  Zpos (digits2_pos mx) = 53 ->
  -1074 <= e -> e <= ex -> ex <= 971 ->
  Zpos p + 2 ^ Zpos n < Zpos mx * 2 ^ (ex - e) ->
  SFcompare (binary_round_aux 53 1024 false (Zpos p) e loc_Exact) (S754_finite false mx ex)
  = Some Lt.
Proof.
  intros Dp Dm Le Lx Ux H.
  pose proof (digits2_pos_bounds p) as [Pl Pu]. rewrite Dp in Pl, Pu.
  pose proof (digits2_pos_bounds mx) as [Ml Mu]. rewrite Dm in Ml, Mu.
  assert (N : 0 < 2 ^ Zpos n) by (apply Z.pow_pos_nonneg; lia).
  replace (53 + Zpos n - 1) with (52 + Zpos n) in Pl by lia.
  rewrite Z.pow_add_r in Pl, Pu by lia.
  unfold binary_round_aux, shr_fexp. cbn [Zdigits2].
  replace (fexp 53 1024 (Zpos (digits2_pos p) + e) - e) with (Zpos n)
    by (unfold fexp, emin; lia).
  cbn [shr shr_record_of_loc].
  set (r1 := iter_pos shr_1 n _).
  assert (Q : shr_m r1 = Zpos p / 2 ^ Zpos n)
    by (subst r1; rewrite iter_shr_1_div by (cbn; lia); reflexivity).
  pose proof (Z.mul_div_le (Zpos p) (2 ^ Zpos n) N) as Q1.
  rewrite <- Q in Q1.
  assert (Ql : 2 ^ 52 <= shr_m r1)
    by (rewrite Q; apply Z.div_le_lower_bound; lia).
  assert (Qu : shr_m r1 < 2 ^ 53)
    by (rewrite Q; apply Z.div_lt_upper_bound; lia).
  pose proof (round_nearest_even_bounds (shr_m r1) (loc_of_shr_record r1)) as [R1 R2].
  change (2 ^ 52) with 4503599627370496 in Ql.
  change (2 ^ 53) with 9007199254740992 in Qu.
  destruct (round_nearest_even (shr_m r1) (loc_of_shr_record r1)) as [|p1|p1] eqn:E1;
    try lia.
  assert (B1 : 2 ^ 52 <= Zpos p1 <= 2 ^ 53)
    by (change (2 ^ 52) with 4503599627370496; change (2 ^ 53) with 9007199254740992; lia).
  assert (K : Zpos p1 * 2 ^ Zpos n < Zpos mx * 2 ^ (ex - e)).
  { assert (Zpos p1 * 2 ^ Zpos n <= (shr_m r1 + 1) * 2 ^ Zpos n)
      by (apply Z.mul_le_mono_nonneg_r; lia).
    rewrite Z.mul_add_distr_r in *. lia. }
  assert (X : e + Zpos n <= ex).
  { destruct (Z.le_gt_cases (e + Zpos n) ex) as [C|C]; trivial. exfalso.
    assert (2 ^ (ex - e + 1) <= 2 ^ Zpos n) as T by (apply Z.pow_le_mono_r; lia).
    rewrite Z.pow_add_r in T by lia. change (2 ^ 1) with 2 in T.
    assert (0 < 2 ^ (ex - e)) by (apply Z.pow_pos_nonneg; lia).
    nia. }
  cbn [Zdigits2].
  destruct (Z.eq_dec (Zpos p1) (2 ^ 53)) as [C|C].
  - assert (P1 : p1 = 9007199254740992%positive) by (change (2 ^ 53) with 9007199254740992 in C; lia).
    subst p1. cbn [digits2_pos Pos.succ].
    replace (fexp 53 1024 (54 + (e + Zpos n)) - (e + Zpos n)) with 1
      by (unfold fexp, emin; lia).
    cbn [shr shr_record_of_loc iter_pos shr_1 shr_m].
    assert (X' : e + Zpos n + 1 <= ex).
    { destruct (Z.eq_dec (e + Zpos n) ex) as [D|D]; [|lia]. exfalso.
      replace (ex - e) with (Zpos n) in K by lia. nia. }
    replace (e + Zpos n + 1 <=? 1024 - 53) with true by (symmetry; apply Z.leb_le; lia).
    cbn [SFcompare].
    destruct (Z.compare_spec (e + Zpos n + 1) ex) as [D|D|D]; trivial; [|lia].
    f_equal. change (PosDef.Pos.compare_cont Eq ?a ?b) with (Pos.compare a b).
    apply Pos.compare_lt_iff, Pos2Z.pos_lt_pos.
    replace (ex - e) with (Zpos n + 1) in K by lia.
    rewrite Z.pow_add_r in K by lia. change (2 ^ 1) with 2 in K.
    change (2 ^ 53) with 9007199254740992 in *. nia.
  - assert (D1 : Zpos (digits2_pos p1) = 53) by (apply digits2_pos_unique; change (53 - 1) with 52; lia).
    rewrite D1.
    replace (fexp 53 1024 (53 + (e + Zpos n)) - (e + Zpos n)) with 0
      by (unfold fexp, emin; lia).
    cbn [shr shr_record_of_loc shr_m].
    replace (e + Zpos n <=? 1024 - 53) with true by (symmetry; apply Z.leb_le; lia).
    cbn [SFcompare].
    destruct (Z.compare_spec (e + Zpos n) ex) as [D|D|D]; trivial; [|lia].
    f_equal. change (PosDef.Pos.compare_cont Eq ?a ?b) with (Pos.compare a b).
    apply Pos.compare_lt_iff, Pos2Z.pos_lt_pos.
    replace (ex - e) with (Zpos n) in K by lia. nia.
Qed.

Lemma pow_lt_inv (a b : Z) : 0 <= b -> 2 ^ a < 2 ^ b -> a < b.
Proof.
  intros Hb H. destruct (Z.lt_ge_cases a b) as [C|C]; trivial. exfalso.
  assert (2 ^ b <= 2 ^ a) by (apply Z.pow_le_mono_r; lia). lia.
Qed.

End Binary64Rounding.

(** ** The script in any arithmetic *)

Section Generic.
Context {N : Type} {A : Arith N}.
Local Open Scope num_scope.

Lemma applyTransform_no_wrapper (s : State N) :
  mapWrapper s = None -> applyTransform s = s.
Proof. intros H. unfold applyTransform. rewrite H. reflexivity. Qed.

Lemma zoomAround_no_wrapper (env : Env N) (newScale cx cy : N) (s : State N) :
  mapWrapper s = None -> zoomAround env newScale cx cy s = s.
Proof. intros H. unfold zoomAround. rewrite H. reflexivity. Qed.

Lemma applyTransform_transform (s : State N) :
  transform (applyTransform s) = transform s.
Proof. unfold applyTransform, transform. cases s; reflexivity. Qed.

Lemma zoomAround_scale (env : Env N) (newScale cx cy : N) (s : State N) :
  scale (zoomAround env newScale cx cy s)
  = if truthy (mapWrapper s) then newScale else scale s.
Proof. unfold zoomAround, applyTransform. cases s; reflexivity. Qed.

Lemma zoomAround_assigns (env : Env N) (newScale cx cy : N) (s : State N) :
  truthy (mapWrapper s) = true ->
  let rect := wrapperRect env in
  let scaleDelta := newScale / scale s in
  transform (zoomAround env newScale cx cy s)
  = (newScale,
     cx - (rect_left rect + (cx - rect_left rect) * scaleDelta),
     cy - (rect_top rect + (cy - rect_top rect) * scaleDelta)).
Proof.
  intros W. unfold zoomAround, applyTransform, transform.
  cases s; try discriminate W; reflexivity.
Qed.

Lemma onMouseMove_keeps_drag (e : MouseEvent N) (s : State N) :
  isDragging (onMouseMove e s) = isDragging s /\
  dragStartX (onMouseMove e s) = dragStartX s /\
  dragStartY (onMouseMove e s) = dragStartY s /\
  dragOriginX (onMouseMove e s) = dragOriginX s /\
  dragOriginY (onMouseMove e s) = dragOriginY s.
Proof.
  unfold onMouseMove, applyTransform. cases s; repeat split.
Qed.

Lemma moves_keep_drag (moves : list (MouseEvent N)) :
  forall s : State N,
  let s' := fold_left (fun st m => onMouseMove m st) moves s in
  isDragging s' = isDragging s /\
  dragStartX s' = dragStartX s /\
  dragStartY s' = dragStartY s /\
  dragOriginX s' = dragOriginX s /\
  dragOriginY s' = dragOriginY s.
Proof.
  induction moves as [|m moves IH]; intros s; simpl.
  - repeat split.
  - destruct (IH (onMouseMove m s)) as (H1 & H2 & H3 & H4 & H5).
    destruct (onMouseMove_keeps_drag m s) as (K1 & K2 & K3 & K4 & K5).
    repeat split; congruence.
Qed.

Lemma onMouseMove_dragging (e : MouseEvent N) (s : State N) :
  isDragging s = true ->
  translateX (onMouseMove e s) = dragOriginX s + (clientX e - dragStartX s) /\
  translateY (onMouseMove e s) = dragOriginY s + (clientY e - dragStartY s).
Proof.
  intros H. unfold onMouseMove, applyTransform. rewrite H. simpl.
  cases s; split; reflexivity.
Qed.

Lemma onMouseDown_starts_drag (e : MouseEvent N) (s s1 : State N) (p : bool) :
  button e = 0%Z -> onMouseDown e s = Ok (s1, p) ->
  isDragging s1 = true /\
  dragStartX s1 = clientX e /\ dragStartY s1 = clientY e /\
  dragOriginX s1 = translateX s /\ dragOriginY s1 = translateY s /\
  transform s1 = transform s.
Proof.
  intros Hb. unfold onMouseDown. rewrite Hb. simpl.
  destruct (mapContainer s); simpl; [|discriminate].
  intros [= <- <-]. repeat split.
Qed.

(** C3.  A drag that starts at translate (tx, ty) with the pointer at p0 and
    ends, after any number of mouse moves, with the pointer at p leaves the
    translate at (tx, ty) + (p - p0), whatever the moves in between were:
    every move recomputes the translate from the snapshot taken at the start
    of the drag. *)
Theorem drag_follows_pointer
    (s s1 : State N) (e0 : MouseEvent N) (p : bool)
    (moves : list (MouseEvent N)) (e : MouseEvent N) :
  button e0 = 0%Z ->
  onMouseDown e0 s = Ok (s1, p) ->
  let s' := fold_left (fun st m => onMouseMove m st) (moves ++ [e]) s1 in
  translateX s' = translateX s + (clientX e - clientX e0) /\
  translateY s' = translateY s + (clientY e - clientY e0).
Proof.
  intros Hb Hd s'. subst s'. rewrite fold_left_app. simpl.
  destruct (onMouseDown_starts_drag e0 s Hb Hd) as (D & SX & SY & OX & OY & _).
  destruct (moves_keep_drag moves s1) as (D' & SX' & SY' & OX' & OY').
  simpl in *.
  destruct (onMouseMove_dragging e (fold_left (fun st m => onMouseMove m st) moves s1))
    as [HX HY]; [congruence|].
  rewrite HX, HY. split; congruence.
Qed.

Lemma resetView_transform (s : State N) :
  transform (resetView s) = (lit 1, lit 0, lit 0).
Proof. unfold resetView, applyTransform, transform. cases s; reflexivity. Qed.

(** C7.  [resetView] is total; whatever the state, it leaves the Transform at
    scale 1 and translate (0, 0), and a second call changes nothing. *)
Theorem resetView_idempotent (s : State N) :
  transform (resetView s) = (lit 1, lit 0, lit 0) /\
  resetView (resetView s) = resetView s.
Proof.
  split; [apply resetView_transform|].
  unfold resetView, applyTransform. cases s; reflexivity.
Qed.

(** C10.  [resetView] leaves the drag state and the pinch baseline as they
    were; a drag that is active stays active, and the next mouse move
    computes the translate from the drag origin recorded before the reset,
    replacing the (0, 0) of the reset. *)
Theorem resetView_keeps_drag (s : State N) :
  (isDragging (resetView s) = isDragging s /\
   dragStartX (resetView s) = dragStartX s /\
   dragStartY (resetView s) = dragStartY s /\
   dragOriginX (resetView s) = dragOriginX s /\
   dragOriginY (resetView s) = dragOriginY s /\
   lastPinchDist (resetView s) = lastPinchDist s) /\
  (isDragging s = true ->
   forall e : MouseEvent N,
   translateX (onMouseMove e (resetView s)) = dragOriginX s + (clientX e - dragStartX s) /\
   translateY (onMouseMove e (resetView s)) = dragOriginY s + (clientY e - dragStartY s)).
Proof.
  assert (F : isDragging (resetView s) = isDragging s /\
              dragStartX (resetView s) = dragStartX s /\
              dragStartY (resetView s) = dragStartY s /\
              dragOriginX (resetView s) = dragOriginX s /\
              dragOriginY (resetView s) = dragOriginY s /\
              lastPinchDist (resetView s) = lastPinchDist s).
  { unfold resetView, applyTransform. cases s; repeat split. }
  split; [exact F|].
  intros D e. destruct F as (F1 & F2 & F3 & F4 & F5 & _).
  destruct (onMouseMove_dragging e (resetView s)) as [HX HY]; [congruence|].
  rewrite HX, HY. split; congruence.
Qed.

(** C4, as the code has it.  A touch-end that leaves no touch ends the drag
    and resets the pinch baseline to zero; a touch-end that leaves a touch
    changes nothing. *)
Theorem onTouchEnd_resets_when_no_touch_is_left (e : TouchEvent N) (s : State N) :
  (touches e = [] ->
   isDragging (onTouchEnd e s) = false /\
   lastPinchDist (onTouchEnd e s) = lit 0 /\
   transform (onTouchEnd e s) = transform s) /\
  (touches e <> [] -> onTouchEnd e s = s).
Proof.
  unfold onTouchEnd. destruct (touches e) as [|t ts]; simpl; split.
  - intros _. repeat split.
  - intros H. now destruct H.
  - discriminate.
  - reflexivity.
Qed.

End Generic.

Section AnyNumber.
Context {N : Type} {Nm : Number N}.
Local Open Scope num_scope.

Lemma zoomIn_no_wrapper (env : Env N) (s : State N) :
  mapWrapper s = None -> zoomIn env s = s.
Proof.
  intros H. unfold zoomIn.
  destruct (_ === _); trivial. apply zoomAround_no_wrapper, H.
Qed.

Lemma zoomOut_no_wrapper (env : Env N) (s : State N) :
  mapWrapper s = None -> zoomOut env s = s.
Proof.
  intros H. unfold zoomOut.
  destruct (_ === _); trivial. apply zoomAround_no_wrapper, H.
Qed.

(** The handlers on the touch lists they look at. *)

Lemma getTouchDist_two (t0 t1 : Touch N) :
  getTouchDist [t0; t1]
  = Ok (Math_sqrt ((touchX t0 - touchX t1) * (touchX t0 - touchX t1)
                   + (touchY t0 - touchY t1) * (touchY t0 - touchY t1))).
Proof. reflexivity. Qed.

Lemma onTouchStart_one (e : TouchEvent N) (s : State N) (t0 : Touch N) :
  touches e = [t0] ->
  onTouchStart e s
  = Ok (set_dragOriginY (translateY s)
          (set_dragOriginX (translateX s)
             (set_dragStartY (touchY t0)
                (set_dragStartX (touchX t0) (set_isDragging true s))))).
Proof. intros H. unfold onTouchStart. rewrite H. reflexivity. Qed.

Lemma onTouchStart_two (e : TouchEvent N) (s : State N) (t0 t1 : Touch N) (dist : N) :
  touches e = [t0; t1] -> getTouchDist [t0; t1] = Ok dist ->
  onTouchStart e s = Ok (set_lastPinchDist dist (set_isDragging false s)).
Proof.
  intros H G. unfold onTouchStart. rewrite H. cbn [List.length Nat.eqb].
  rewrite G. reflexivity.
Qed.

Lemma onTouchStart_other (e : TouchEvent N) (s : State N) :
  List.length (touches e) <> 1%nat -> List.length (touches e) <> 2%nat ->
  onTouchStart e s = Ok s.
Proof.
  intros H1 H2. unfold onTouchStart.
  apply Nat.eqb_neq in H1, H2. rewrite H1, H2. reflexivity.
Qed.

Lemma onTouchMove_one (env : Env N) (e : TouchEvent N) (s : State N) (t0 : Touch N) :
  touches e = [t0] ->
  onTouchMove env e s
  = if isDragging s
    then Ok (applyTransform
               (set_translateY (dragOriginY s + (touchY t0 - dragStartY s))
                  (set_translateX (dragOriginX s + (touchX t0 - dragStartX s)) s)),
             true)
    else Ok (s, true).
Proof.
  intros H. unfold onTouchMove. rewrite H. cbn [List.length Nat.eqb andb].
  destruct (isDragging s); reflexivity.
Qed.

Lemma onTouchMove_two
    (env : Env N) (e : TouchEvent N) (s : State N) (t0 t1 : Touch N) (dist : N) :
  touches e = [t0; t1] -> getTouchDist [t0; t1] = Ok dist ->
  onTouchMove env e s
  = Ok (set_lastPinchDist dist
          (zoomAround env
             (clamp (scale s + (dist - lastPinchDist s) / lit 200) MIN_SCALE MAX_SCALE)
             ((touchX t0 + touchX t1) / lit 2) ((touchY t0 + touchY t1) / lit 2) s),
        true).
Proof.
  intros H G. unfold onTouchMove. rewrite H. cbn [List.length Nat.eqb andb].
  rewrite G. reflexivity.
Qed.

Lemma onTouchMove_other (env : Env N) (e : TouchEvent N) (s : State N) :
  List.length (touches e) <> 1%nat -> List.length (touches e) <> 2%nat ->
  onTouchMove env e s = Ok (s, true).
Proof.
  intros H1 H2. unfold onTouchMove.
  apply Nat.eqb_neq in H1, H2. rewrite H1, H2. reflexivity.
Qed.


Lemma boot_disabled (doc : Document N) :
  truthy (doc_mapContainer doc) = false \/ truthy (doc_mapWrapper doc) = false ->
  boot doc
  = mkState (lit 1) (lit 0) (lit 0) false (lit 0) (lit 0) (lit 0) (lit 0) (lit 0)
      (doc_mapContainer doc) (doc_mapWrapper doc) (doc_zoomLevel doc) [].
Proof.
  destruct doc as [[c|] [w|] d]; simpl; intros [H|H]; try discriminate; reflexivity.
Qed.

Lemma deliver_no_listener (env : Env N) (ev : Event N) (s : State N) :
  listeners s = [] ->
  deliver env ev s
  = Ok match ev with
       | CallZoomIn => zoomIn env s
       | CallZoomOut => zoomOut env s
       | CallResetView => resetView s
       | _ => s
       end.
Proof.
  intros H. destruct ev; simpl; unfold listening; rewrite ?H; reflexivity.
Qed.

(** C6, as the code has it.  On a page without the container or without the
    wrapper, [init] registers no listener, no call and no event raises an
    error, and events change nothing; [resetView] leaves the transform at
    its initial values.  Without the wrapper, [zoomIn], [zoomOut] and
    [resetView] leave the whole state as it is.  Without the container
    only, [zoomIn] and [zoomOut] zoom around the centre of the window. *)
Theorem disabled_widget (doc : Document N) :
  truthy (doc_mapContainer doc) = false \/ truthy (doc_mapWrapper doc) = false ->
  let s := boot doc in
  listeners s = [] /\
  (forall env ev, exists s', deliver env ev s = Ok s') /\
  (forall env ev,
     match ev with
     | CallZoomIn | CallZoomOut | CallResetView => True
     | _ => deliver env ev s = Ok s
     end) /\
  transform s = (lit 1, lit 0, lit 0) /\
  transform (resetView s) = (lit 1, lit 0, lit 0) /\
  (truthy (doc_mapWrapper doc) = false ->
   forall env, zoomIn env s = s /\ zoomOut env s = s /\ resetView s = s) /\
  (truthy (doc_mapContainer doc) = false ->
   forall env,
   let cx := lit 0 + innerWidth env / lit 2 in
   let cy := lit 0 + innerHeight env / lit 2 in
   let up := clamp (scale s + ZOOM_STEP) MIN_SCALE MAX_SCALE in
   let down := clamp (scale s - ZOOM_STEP) MIN_SCALE MAX_SCALE in
   zoomIn env s = (if up === scale s then s else zoomAround env up cx cy s) /\
   zoomOut env s = (if down === scale s then s else zoomAround env down cx cy s)).
Proof.
  intros H s. subst s. rewrite (boot_disabled doc H).
  set (s := mkState _ _ _ _ _ _ _ _ _ _ _ _ _).
  assert (L : listeners s = []) by reflexivity.
  split; [exact L|].
  split; [intros env ev; rewrite (deliver_no_listener env ev s L); eexists; reflexivity|].
  split; [intros env ev; rewrite (deliver_no_listener env ev s L); destruct ev; trivial|].
  split; [reflexivity|].
  split; [apply resetView_transform|].
  split.
  - intros W env.
    assert (W' : mapWrapper s = None)
      by (subst s; simpl; destruct (doc_mapWrapper doc); [discriminate|reflexivity]).
    split; [apply zoomIn_no_wrapper, W'|].
    split; [apply zoomOut_no_wrapper, W'|].
    unfold resetView. subst s. simpl in *. unfold applyTransform. simpl.
    rewrite W'. reflexivity.
  - intros C env. 
    assert (C' : mapContainer s = None)
      by (subst s; simpl; destruct (doc_mapContainer doc); [discriminate|reflexivity]).
    unfold zoomIn, zoomOut, centreRect. rewrite C'. simpl. split; reflexivity.
Qed.

End AnyNumber.

(** ** The script on binary64: facts *)

Section OnBinary64.
Import Binary64 Binary64Facts.
Local Open Scope num_scope.

Lemma MIN_SCALE_sf : Prim2SF MIN_SCALE = S754_finite false 4503599627370496 (-53).
Proof. vm_compute. reflexivity. Qed.

Lemma MAX_SCALE_sf : Prim2SF MAX_SCALE = S754_finite false 5629499534213120 (-50).
Proof. vm_compute. reflexivity. Qed.

Lemma in_range_finite_sf (x : float) :
  in_range x = true -> exists m e, Prim2SF x = S754_finite false m e.
Proof.
  unfold in_range. rewrite andb_true_iff, !FloatAxioms.leb_spec.
  rewrite MIN_SCALE_sf, MAX_SCALE_sf. unfold SFleb.
  destruct (Prim2SF x) as [sx|sx| |sx mx ex]; unfold SFcompare; intros [H1 H2];
    try discriminate; try (destruct sx; discriminate).
  destruct sx; [discriminate|]. eauto.
Qed.

Lemma in_range_finite (x : float) : in_range x = true -> finite x = true.
Proof.
  intros H. destruct (in_range_finite_sf x H) as (m & e & E).
  unfold finite. rewrite E. reflexivity.
Qed.

Lemma clamp_in_range (v : float) :
  number v = true -> in_range (clamp v MIN_SCALE MAX_SCALE) = true.
Proof.
  intros Hv. unfold clamp, in_range. simpl Math_max. simpl Math_min.
  assert (Hlo : number MIN_SCALE = true) by (vm_compute; reflexivity).
  assert (Hhi : number MAX_SCALE = true) by (vm_compute; reflexivity).
  assert (Hlh : (MIN_SCALE <=? MAX_SCALE)%float = true) by (vm_compute; reflexivity).
  destruct (max_cases v MIN_SCALE Hv Hlo) as [[Em Hm]|[Em Hm]]; rewrite Em.
  - destruct (min_cases v MAX_SCALE Hv Hhi) as [[En Hn]|[En Hn]]; rewrite En.
    + rewrite Hm, Hn. reflexivity.
    + rewrite Hlh, (leb_refl _ Hhi). reflexivity.
  - destruct (min_cases MIN_SCALE MAX_SCALE Hlo Hhi) as [[En Hn]|[En Hn]]; rewrite En.
    + rewrite (leb_refl _ Hlo), Hlh. reflexivity.
    + rewrite Hlh, (leb_refl _ Hhi). reflexivity.
Qed.

Lemma step_up_in_range (x : float) :
  in_range x = true -> in_range (clamp (x + ZOOM_STEP) MIN_SCALE MAX_SCALE) = true.
Proof.
  intros H. apply clamp_in_range. apply add_number.
  - apply in_range_finite, H.
  - vm_compute. reflexivity.
Qed.

Lemma step_down_in_range (x : float) :
  in_range x = true -> in_range (clamp (x - ZOOM_STEP) MIN_SCALE MAX_SCALE) = true.
Proof.
  intros H. apply clamp_in_range. apply sub_number.
  - apply in_range_finite, H.
  - vm_compute. reflexivity.
Qed.

Lemma wheel_step_in_range (x d : float) :
  in_range x = true ->
  in_range (clamp (x + (if (d <? lit 0) then ZOOM_STEP else - ZOOM_STEP))
              MIN_SCALE MAX_SCALE) = true.
Proof.
  intros H. apply clamp_in_range. apply add_number.
  - apply in_range_finite, H.
  - destruct (d <? lit 0); vm_compute; reflexivity.
Qed.

Lemma pinch_step_in_range (x dist last : float) :
  in_range x = true -> finite dist = true -> finite last = true ->
  in_range (clamp (x + (dist - last) / lit 200) MIN_SCALE MAX_SCALE) = true.
Proof.
  intros H Hd Hl. apply clamp_in_range. apply add_number.
  - apply in_range_finite, H.
  - apply (@div_number _ (lit 200) false 7036874417766400 (-45)).
    + vm_compute. reflexivity.
    + apply sub_number; assumption.
Qed.

(** *** The invariant along the event loop *)

Lemma invariant_frame (s s' : State float) :
  scale s' = scale s -> lastPinchDist s' = lastPinchDist s ->
  listeners s' = listeners s -> truthy (mapContainer s') = truthy (mapContainer s) ->
  invariant s -> invariant s'.
Proof. unfold invariant. intros -> -> -> ->. trivial. Qed.

Lemma invariant_rescale (s s' : State float) :
  in_range (scale s') = true -> lastPinchDist s' = lastPinchDist s ->
  listeners s' = listeners s -> truthy (mapContainer s') = truthy (mapContainer s) ->
  invariant s -> invariant s'.
Proof. unfold invariant. intros H -> -> -> (_ & ? & ?). auto. Qed.

Lemma invariant_applyTransform (s : State float) :
  invariant s -> invariant (applyTransform s).
Proof.
  apply invariant_frame; unfold applyTransform; cases s; reflexivity.
Qed.

Lemma invariant_zoomAround (env : Env float) (newScale cx cy : float) (s : State float) :
  in_range newScale = true -> invariant s -> invariant (zoomAround env newScale cx cy s).
Proof.
  intros H I.
  assert (R : in_range (scale (zoomAround env newScale cx cy s)) = true).
  { rewrite zoomAround_scale. destruct (truthy (mapWrapper s)); [exact H | apply I]. }
  revert I. apply invariant_rescale; trivial;
    unfold zoomAround, applyTransform; cases s; reflexivity.
Qed.

Lemma invariant_zoomIn (env : Env float) (s : State float) :
  invariant s -> invariant (zoomIn env s).
Proof.
  intros I. unfold zoomIn. destruct (_ === _); trivial.
  apply invariant_zoomAround; trivial. apply step_up_in_range, I.
Qed.

Lemma invariant_zoomOut (env : Env float) (s : State float) :
  invariant s -> invariant (zoomOut env s).
Proof.
  intros I. unfold zoomOut. destruct (_ === _); trivial.
  apply invariant_zoomAround; trivial. apply step_down_in_range, I.
Qed.

Lemma invariant_resetView (s : State float) :
  invariant s -> invariant (resetView s).
Proof.
  apply invariant_rescale.
  - unfold resetView, applyTransform. cases s; vm_compute; reflexivity.
  - unfold resetView, applyTransform; cases s; reflexivity.
  - unfold resetView, applyTransform; cases s; reflexivity.
  - unfold resetView, applyTransform; cases s; reflexivity.
Qed.

Lemma invariant_onWheel (env : Env float) (e : WheelEvent float) (s : State float) :
  invariant s -> invariant (fst (onWheel env e s)).
Proof.
  intros I. unfold onWheel. cbn [fst]. destruct (_ === _); cbn [negb]; trivial.
  apply invariant_zoomAround; trivial. apply wheel_step_in_range, I.
Qed.

Lemma invariant_onMouseMove (e : MouseEvent float) (s : State float) :
  invariant s -> invariant (onMouseMove e s).
Proof.
  apply invariant_frame; unfold onMouseMove, applyTransform; cases s; reflexivity.
Qed.

Lemma invariant_onTouchEnd (e : TouchEvent float) (s : State float) :
  invariant s -> invariant (onTouchEnd e s).
Proof.
  unfold onTouchEnd. destruct (_ =? _)%nat; trivial.
  unfold invariant. simpl. intros (? & _ & ?). repeat split; trivial.
Qed.

Lemma invariant_onKeyDown (env : Env float) (e : KeyboardEvent) (s : State float) :
  invariant s -> invariant (fst (onKeyDown env e s)).
Proof.
  intros I. unfold onKeyDown.
  destruct (truthy (mapContainer s)); simpl; trivial.
  repeat match goal with
  | |- context [if ?b then _ else _] => destruct b; simpl
  end; trivial;
    try apply invariant_zoomIn; try apply invariant_zoomOut;
    try apply invariant_resetView; trivial;
    apply invariant_applyTransform; revert I; apply invariant_frame; reflexivity.
Qed.

Lemma listening_container (t : Target) (type : string) (s : State float) :
  invariant s -> listening t type s = true -> exists c, mapContainer s = Some c.
Proof.
  intros (_ & _ & [L|C]) H.
  - unfold listening in H. rewrite L in H. discriminate.
  - destruct (mapContainer s); [eauto | discriminate].
Qed.

Lemma invariant_onMouseDown (e : MouseEvent float) (s : State float) :
  invariant s -> (exists c, mapContainer s = Some c) ->
  exists r, onMouseDown e s = Ok r /\ invariant (fst r).
Proof.
  intros I [c C]. unfold onMouseDown.
  destruct (negb _); [eexists; split; [reflexivity | exact I]|].
  simpl. rewrite C. simpl. eexists. split; [reflexivity|]. simpl.
  revert I. apply invariant_frame; simpl; trivial. rewrite C. reflexivity.
Qed.

Lemma invariant_onMouseUp (s : State float) :
  invariant s -> (exists c, mapContainer s = Some c) ->
  exists s', onMouseUp s = Ok s' /\ invariant s'.
Proof.
  intros I [c C]. unfold onMouseUp.
  destruct (negb _); [eexists; split; [reflexivity | exact I]|].
  simpl. rewrite C. simpl. eexists. split; [reflexivity|].
  revert I. apply invariant_frame; simpl; trivial. rewrite C. reflexivity.
Qed.

Lemma invariant_onTouchStart (e : TouchEvent float) (s : State float) :
  invariant s -> finite_pinch (TouchStart e) = true ->
  exists s', onTouchStart e s = Ok s' /\ invariant s'.
Proof.
  intros I F. unfold finite_pinch in F.
  destruct (touches e) as [|t0 [|t1 [|t2 ts]]] eqn:T.
  - rewrite onTouchStart_other by (rewrite T; discriminate). eauto.
  - rewrite (onTouchStart_one e s T). eexists. split; [reflexivity|].
    revert I. apply invariant_frame; reflexivity.
  - cbn [List.length Nat.eqb] in F. rewrite getTouchDist_two in F.
    rewrite (onTouchStart_two e s T (getTouchDist_two t0 t1)).
    eexists. split; [reflexivity|].
    destruct I as (? & ? & ?). repeat split; trivial.
  - rewrite onTouchStart_other by (rewrite T; discriminate). eauto.
Qed.

Lemma invariant_onTouchMove (env : Env float) (e : TouchEvent float) (s : State float) :
  invariant s -> finite_pinch (TouchMove e) = true ->
  exists r, onTouchMove env e s = Ok r /\ invariant (fst r).
Proof.
  intros I F. unfold finite_pinch in F.
  destruct (touches e) as [|t0 [|t1 [|t2 ts]]] eqn:T.
  - rewrite onTouchMove_other by (rewrite T; discriminate). eauto.
  - rewrite (onTouchMove_one env e s T).
    destruct (isDragging s); eexists; (split; [reflexivity|]); cbn [fst]; trivial.
    apply invariant_applyTransform. revert I. apply invariant_frame; reflexivity.
  - cbn [List.length Nat.eqb] in F. rewrite getTouchDist_two in F.
    rewrite (onTouchMove_two env e s T (getTouchDist_two t0 t1)).
    eexists. split; [reflexivity|]. cbn [fst].
    match goal with
    | |- invariant (set_lastPinchDist ?d (zoomAround _ ?ns ?cx ?cy _)) =>
        assert (R : in_range ns = true)
          by (apply pinch_step_in_range; [apply I | exact F | apply I]);
        pose proof (@invariant_zoomAround env ns cx cy _ R I) as (? & _ & ?)
    end.
    repeat split; trivial.
  - rewrite onTouchMove_other by (rewrite T; discriminate). eauto.
Qed.

Lemma invariant_boot (doc : Document float) : invariant (boot doc).
Proof.
  destruct doc as [[c|] [w|] [d|]]; unfold invariant; simpl;
    (split; [vm_compute; reflexivity|]); (split; [vm_compute; reflexivity|]); auto.
Qed.

Lemma invariant_deliver (env : Env float) (ev : Event float) (s : State float) :
  invariant s -> finite_pinch ev = true ->
  exists s', deliver env ev s = Ok s' /\ invariant s'.
Proof.
  intros I F. destruct ev; simpl deliver;
    try match goal with
    | |- context [listening ?t ?ty s] =>
        destruct (listening t ty s) eqn:L; [|eexists; split; [reflexivity | exact I]]
    end.
  - eexists; split; [reflexivity | apply invariant_zoomIn, I].
  - eexists; split; [reflexivity | apply invariant_zoomOut, I].
  - eexists; split; [reflexivity | apply invariant_resetView, I].
  - destruct (invariant_onMouseDown e I (listening_container _ _ I L)) as (r & E & Ir).
    rewrite E. simpl. eauto.
  - eexists; split; [reflexivity | apply invariant_onMouseMove, I].
  - apply invariant_onMouseUp; trivial. apply (listening_container _ _ I L).
  - eexists; split; [reflexivity | apply invariant_onWheel, I].
  - apply invariant_onTouchStart; trivial.
  - destruct (invariant_onTouchMove env e I F) as (r & E & Ir).
    rewrite E. simpl. eauto.
  - eexists; split; [reflexivity | apply invariant_onTouchEnd, I].
  - eexists; split; [reflexivity | apply invariant_onKeyDown, I].
  - eexists; split; [reflexivity | exact I].
Qed.

Lemma reachable_invariant (s : State float) : reachable s -> invariant s.
Proof.
  induction 1 as [doc | s s' env ev _ IH F D].
  - apply invariant_boot.
  - destruct (invariant_deliver env ev IH F) as (s'' & E & I).
    rewrite E in D. injection D as <-. exact I.
Qed.

Lemma invariant_run (evs : list (Env float * Event float)) :
  forall s : State float,
  invariant s -> Forall (fun p => finite_pinch (snd p) = true) evs ->
  exists s', run evs s = Ok s' /\ invariant s'.
Proof.
  induction evs as [|[env ev] evs IH]; intros s I F; simpl.
  - eauto.
  - inversion F as [|? ? F1 F2]; subst. simpl in F1.
    destruct (invariant_deliver env ev I F1) as (s1 & E & I1).
    rewrite E. simpl. apply IH; assumption.
Qed.

End OnBinary64.

(** *** [clamp] at the scale bounds *)

Section ClampOnBinary64.
Import Binary64 Binary64Facts Binary64Order.
Local Open Scope num_scope.

Lemma clamp_fixes (val lo hi : float) :
  (lo <=? val)%float = true -> (val <=? hi)%float = true ->
  (clamp val lo hi === val) = true.
Proof.
  intros H1 H2.
  destruct (leb_number H1) as [Hlo Hv]. destruct (leb_number H2) as [_ Hhi].
  unfold clamp. cbn [Math_max Math_min strict_eq float_Number].
  destruct (max_cases val lo Hv Hlo) as [[Em Hm]|[Em Hm]]; rewrite Em.
  - destruct (min_cases val hi Hv Hhi) as [[En Hn]|[En Hn]]; rewrite En.
    + apply eqb_refl, Hv.
    + apply leb_antisym; assumption.
  - destruct (min_cases lo hi Hlo Hhi) as [[En Hn]|[En Hn]]; rewrite En.
    + apply leb_antisym; assumption.
    + apply leb_antisym; [exact (leb_trans Hn H1) | assumption].
Qed.

Lemma clamp_in_range_id (v : float) :
  in_range v = true -> clamp v MIN_SCALE MAX_SCALE = v.
Proof.
  intros R. destruct (in_range_finite_sf _ R) as (m & e & F).
  apply andb_true_iff in R. destruct R as [R1 R2].
  exact (eqb_finite_eq F (clamp_fixes R1 R2)).
Qed.

Lemma clamp_below_MIN (v : float) :
  (v <? MIN_SCALE)%float = true -> clamp v MIN_SCALE MAX_SCALE = MIN_SCALE.
Proof.
  intros H. destruct (leb_number (ltb_leb H)) as [Hv _].
  unfold clamp. cbn [Math_max Math_min float_Number]. unfold Binary64.max.
  rewrite !is_nan_number, Hv.
  replace (number MIN_SCALE) with true by (vm_compute; reflexivity).
  cbn [negb orb]. rewrite H. vm_compute. reflexivity.
Qed.

End ClampOnBinary64.

(** *** One step down from a scale in range *)

Section StepOnBinary64.
Import Binary64 Binary64Facts Binary64Order Binary64Rounding.
Local Open Scope Z_scope.

(** A double of [MIN_SCALE, MAX_SCALE]. *)
Lemma in_range_sf (x : float) :
  in_range x = true ->
  exists (m : positive) (e : Z),
    Prim2SF x = S754_finite false m e /\ -53 <= e <= -50 /\ Zpos (digits2_pos m) = 53.
Proof.
  intros R. pose proof (FloatAxioms.Prim2SF_valid x) as V. revert R V.
  unfold in_range. rewrite andb_true_iff, !FloatAxioms.leb_spec.
  rewrite MIN_SCALE_sf, MAX_SCALE_sf. unfold SFleb.
  destruct (Prim2SF x) as [sx|sx| |sx mx ex]; unfold SFcompare; intros [H1 H2];
    try discriminate; try (destruct sx; discriminate).
  destruct sx; try discriminate.
  cbn [valid_binary]. unfold bounded, canonical_mantissa, fexp, emin.
  rewrite andb_true_iff, Z.eqb_eq. intros [V _]. cbv [prec emax] in V.
  exists mx, ex. split; [reflexivity|].
  destruct (Z.compare_spec (-53) ex), (Z.compare_spec ex (-50)); try discriminate; lia.
Qed.

Lemma ZOOM_STEP_sf :
  Prim2SF ZOOM_STEP = S754_finite false 7205759403792794 (-55).
Proof. reflexivity. Qed.

(** The integer that [x - ZOOM_STEP] rounds, for x in range, rounds to
    less than x. *)
Lemma binary_normalize_step_lt (m : positive) (e : Z) :
  Zpos (digits2_pos m) = 53 -> -53 <= e <= -50 ->
  SFcompare
    (binary_normalize 53 1024 (Zpos m * 2 ^ (e + 55) - 7205759403792794) (-55) false)
    (S754_finite false m e)
  = Some Lt.
Proof.
  intros Dm E.
  pose proof (digits2_pos_bounds m) as [Ml Mu]. rewrite Dm in Ml, Mu.
  change (2 ^ (53 - 1)) with 4503599627370496 in Ml.
  change (2 ^ 53) with 9007199254740992 in Mu.
  assert (S : 4 <= 2 ^ (e + 55) <= 32).
  { assert (C : e = -53 \/ e = -52 \/ e = -51 \/ e = -50) by lia.
    destruct C as [ -> | [ -> | [ -> | -> ]]]; cbn; lia. }
  destruct (Zpos m * 2 ^ (e + 55) - 7205759403792794) as [|p|p] eqn:P; try nia.
  assert (B : 2 ^ 53 < Zpos p < 2 ^ 58).
  { change (2 ^ 53) with 9007199254740992. change (2 ^ 58) with 288230376151711744. nia. }
  pose proof (digits2_pos_bounds p) as [Pl Pu].
  assert (D1 : 53 < Zpos (digits2_pos p)) by (apply pow_lt_inv; lia).
  assert (D2 : Zpos (digits2_pos p) - 1 < 58) by (apply pow_lt_inv; lia).
  assert (N : exists n : positive, Zpos (digits2_pos p) = 53 + Zpos n /\ Zpos n <= 5).
  { exists (Z.to_pos (Zpos (digits2_pos p) - 53)). rewrite Z2Pos.id by lia. lia. }
  destruct N as (n & Dp & N5).
  cbn [binary_normalize]. unfold binary_round, shl_align.
  replace (fexp 53 1024 (Zpos (digits2_pos p) + -55) - -55) with (Zpos n)
    by (unfold fexp, emin; lia).
  apply binary_round_aux_lt with n; trivial; try lia.
  assert (T : 2 ^ Zpos n <= 2 ^ 5) by (apply Z.pow_le_mono_r; lia).
  change (2 ^ 5) with 32 in T.
  replace (e - -55) with (e + 55) by lia. lia.
Qed.

(** Zooming out one step from a scale in range gives a smaller double. *)
Lemma step_down_lt (x : float) :
  in_range x = true -> (x - ZOOM_STEP <? x)%float = true.
Proof.
  intros R. destruct (in_range_sf x R) as (m & e & F & E & Dm).
  rewrite FloatAxioms.ltb_spec, FloatAxioms.sub_spec, F, ZOOM_STEP_sf.
  unfold SFltb, SF64sub. cbn [SFsub cond_Zopp].
  rewrite Z.min_r by lia.
  assert (A : Zpos (fst (shl_align m e (-55))) = Zpos m * 2 ^ (e + 55)).
  { unfold shl_align.
    assert (C : e = -53 \/ e = -52 \/ e = -51 \/ e = -50) by lia.
    destruct C as [ -> | [ -> | [ -> | -> ]]]; cbn; lia. }
  rewrite A.
  change (Zpos (fst (shl_align 7205759403792794 (-55) (-55)))) with 7205759403792794.
  change prec with 53. change emax with 1024.
  rewrite (@binary_normalize_step_lt m e Dm E). reflexivity.
Qed.

End StepOnBinary64.

(** ** The script on binary64: the properties *)

Section PropertiesOnBinary64.
Import Binary64 Binary64Facts.
Local Open Scope num_scope.

Lemma zoomIn_at_MAX (env : Env float) (s : State float) :
  (scale s === MAX_SCALE) = true -> zoomIn env s = s.
Proof.
  intros H. apply (eqb_finite_eq MAX_SCALE_sf) in H.
  unfold zoomIn. rewrite H.
  replace (clamp (MAX_SCALE + ZOOM_STEP) MIN_SCALE MAX_SCALE === MAX_SCALE)
    with true by (vm_compute; reflexivity).
  reflexivity.
Qed.

Lemma zoomOut_at_MIN (env : Env float) (s : State float) :
  (scale s === MIN_SCALE) = true -> zoomOut env s = s.
Proof.
  intros H. apply (eqb_finite_eq MIN_SCALE_sf) in H.
  unfold zoomOut. rewrite H.
  replace (clamp (MIN_SCALE - ZOOM_STEP) MIN_SCALE MAX_SCALE === MIN_SCALE)
    with true by (vm_compute; reflexivity).
  reflexivity.
Qed.

(** C2.  From a reachable state, every finite sequence of events (calls of
    [zoomIn] and [zoomOut], wheel and pinch events among them) is handled
    without error and leaves MIN_SCALE <= scale <= MAX_SCALE; at MAX_SCALE a
    further [zoomIn], and at MIN_SCALE a further [zoomOut], leaves the whole
    state as it is.  The two points of a two-finger touch event are taken
    to be a finite distance apart, as they are on a screen. *)
Theorem scale_stays_clamped (s : State float) (evs : list (Env float * Event float)) :
  reachable s ->
  Forall (fun p => finite_pinch (snd p) = true) evs ->
  exists s',
    run evs s = Ok s' /\
    in_range (scale s') = true /\
    (forall env, (scale s' === MAX_SCALE) = true -> zoomIn env s' = s') /\
    (forall env, (scale s' === MIN_SCALE) = true -> zoomOut env s' = s').
Proof.
  intros R F.
  destruct (invariant_run (reachable_invariant R) F) as (s' & E & I).
  exists s'. split; [exact E|]. split; [apply I|].
  split; intros env; [apply zoomIn_at_MAX | apply zoomOut_at_MIN].
Qed.

Lemma scale_stays_clamped_witness :
  reachable (boot Sample.mapPage) /\
  Forall (fun p => finite_pinch (snd p) = true) Sample.session /\
  exists s',
    run Sample.session (boot Sample.mapPage) = Ok s' /\
    in_range (scale s') = true /\
    (forall env, (scale s' === MAX_SCALE) = true -> zoomIn env s' = s') /\
    (forall env, (scale s' === MIN_SCALE) = true -> zoomOut env s' = s').
Proof.
  assert (R : reachable (boot Sample.mapPage)) by apply reachable_boot.
  assert (F : Forall (fun p => finite_pinch (snd p) = true) Sample.session)
    by (repeat constructor).
  split; [exact R|]. split; [exact F|].
  exact (scale_stays_clamped R F).
Defined.

(** C9.  A wheel event whose vertical delta is zero zooms out: it does what
    a wheel event with a positive delta at the same position does, which is
    to zoom around the cursor to clamp(scale - ZOOM_STEP), or nothing when
    that is the scale already; only a negative delta zooms in.  For a
    scale in range the clamped value is scale - ZOOM_STEP when that is
    MIN_SCALE or more, and MIN_SCALE when it is less; it is below the
    scale whenever the scale is above MIN_SCALE, and at MIN_SCALE the
    event leaves the state as it is. *)
Theorem wheel_zero_delta_zooms_out
    (env : Env float) (e : WheelEvent float) (s : State float) :
  (deltaY e === lit 0) = true ->
  let down := clamp (scale s - ZOOM_STEP) MIN_SCALE MAX_SCALE in
  onWheel env e s
  = (if down !== scale s then zoomAround env down (wheelX e) (wheelY e) s else s, true) /\
  (forall d : float,
     (lit 0 <? d) = true ->
     onWheel env (mkWheel d (wheelX e) (wheelY e)) s = onWheel env e s) /\
  (truthy (mapWrapper s) = true -> in_range (scale s) = true ->
   scale (fst (onWheel env e s)) = down) /\
  (in_range (scale s) = true ->
   ((scale s - ZOOM_STEP <? MIN_SCALE) = true -> down = MIN_SCALE) /\
   ((scale s - ZOOM_STEP <? MIN_SCALE) = false -> down = scale s - ZOOM_STEP) /\
   ((MIN_SCALE <? scale s) = true -> (down <? scale s) = true) /\
   ((scale s === MIN_SCALE) = true -> onWheel env e s = (s, true))).
Proof.
  intros H down.
  assert (L : (deltaY e <? lit 0) = false) by (apply eqb_zero_not_ltb, H).
  assert (E : onWheel env e s
              = (if down !== scale s
                 then zoomAround env down (wheelX e) (wheelY e) s else s, true)).
  { unfold onWheel. rewrite L. subst down.
    change (scale s + - ZOOM_STEP) with (scale s + - ZOOM_STEP)%float.
    rewrite add_opp. reflexivity. }
  split; [exact E|]. split; [|split].
  - intros d Hd. rewrite E. unfold onWheel. cbn [deltaY wheelX wheelY].
    assert (L' : (d <? lit 0) = false) by (apply ltb_asym, Hd). rewrite L'.
    change (scale s + - ZOOM_STEP) with (scale s + - ZOOM_STEP)%float.
    rewrite add_opp. reflexivity.
  - intros W R. rewrite E. cbn [fst].
    destruct (down === scale s) eqn:D; cbn [negb].
    + destruct (in_range_finite_sf _ R) as (m & x & F).
      symmetry. exact (eqb_finite_eq F D).
    + rewrite zoomAround_scale, W. reflexivity.
  - intros R. pose proof (step_down_lt _ R) as S.
    assert (R' := R). apply andb_true_iff in R'. destruct R' as [R1 R2].
    assert (U : (scale s - ZOOM_STEP <=? MAX_SCALE)%float = true)
      by (eapply Binary64Order.leb_trans; [apply ltb_leb, S | exact R2]).
    assert (N : number (scale s - ZOOM_STEP) = true)
      by (apply sub_number; [apply in_range_finite, R | reflexivity]).
    assert (A : (scale s - ZOOM_STEP <? MIN_SCALE) = false -> down = scale s - ZOOM_STEP).
    { intros M. apply clamp_in_range_id, andb_true_iff. split; [|exact U].
      apply not_ltb_leb; trivial. }
    assert (B : (scale s - ZOOM_STEP <? MIN_SCALE) = true -> down = MIN_SCALE)
      by (intros M; apply clamp_below_MIN, M).
    split; [exact B|]. split; [exact A|]. split.
    + intros G. destruct (scale s - ZOOM_STEP <? MIN_SCALE) eqn:C.
      * rewrite (B eq_refl). exact G.
      * rewrite (A eq_refl). exact S.
    + intros G. rewrite E.
      apply (eqb_finite_eq MIN_SCALE_sf) in G.
      assert (C : (scale s - ZOOM_STEP <? MIN_SCALE) = true) by (rewrite G; reflexivity).
      rewrite (B C), G.
      replace (MIN_SCALE !== MIN_SCALE) with false by reflexivity. reflexivity.
Qed.

Lemma wheel_zero_delta_zooms_out_witness :
  (deltaY Sample.flatWheel === lit 0) = true /\
  scale (boot Sample.mapPage) = lit 1 /\
  let s1 := fst (onWheel Sample.env Sample.flatWheel (boot Sample.mapPage)) in
  let s2 := fst (onWheel Sample.env Sample.flatWheel s1) in
  let s3 := fst (onWheel Sample.env Sample.flatWheel s2) in
  scale s1 = lit 0.8 /\
  scale s2 = 0x1.3333333333334p-1%float /\
  scale s3 = MIN_SCALE /\
  onWheel Sample.env Sample.flatWheel s3 = (s3, true).
Proof.
  split; [reflexivity|]. split; [reflexivity|].
  pose (wheel := fun s : State float => fst (onWheel Sample.env Sample.flatWheel s)).
  change (let s1 := wheel (boot Sample.mapPage) in
          let s2 := wheel s1 in
          let s3 := wheel s2 in
          scale s1 = lit 0.8 /\ scale s2 = 0x1.3333333333334p-1%float /\
          scale s3 = MIN_SCALE /\ onWheel Sample.env Sample.flatWheel s3 = (s3, true)).
  intros s1 s2 s3.
  assert (Z : (deltaY Sample.flatWheel === lit 0) = true) by reflexivity.
  assert (W : forall s, truthy (mapWrapper s) = true -> truthy (mapWrapper (wheel s)) = true).
  { intros s. unfold wheel, onWheel, zoomAround, applyTransform.
    destruct (_ !== _); cbn [fst]; trivial. cases s; trivial. }
  destruct (@wheel_zero_delta_zooms_out Sample.env Sample.flatWheel (boot Sample.mapPage) Z)
    as (_ & _ & H0 & K0).
  assert (R0 : in_range (scale (boot Sample.mapPage)) = true) by reflexivity.
  assert (E1 : scale s1 = lit 0.8).
  { unfold s1, wheel. rewrite (H0 eq_refl R0).
    destruct (K0 R0) as (_ & A & _). rewrite A; reflexivity. }
  destruct (@wheel_zero_delta_zooms_out Sample.env Sample.flatWheel s1 Z)
    as (_ & _ & H1 & K1).
  assert (R1 : in_range (scale s1) = true) by (rewrite E1; reflexivity).
  assert (W1 : truthy (mapWrapper s1) = true) by (apply W; reflexivity).
  assert (E2 : scale s2 = 0x1.3333333333334p-1%float).
  { unfold s2, wheel. rewrite (H1 W1 R1).
    destruct (K1 R1) as (_ & A & _). rewrite A; rewrite E1; reflexivity. }
  destruct (@wheel_zero_delta_zooms_out Sample.env Sample.flatWheel s2 Z)
    as (_ & _ & H2 & K2).
  assert (R2 : in_range (scale s2) = true) by (rewrite E2; reflexivity).
  assert (W2 : truthy (mapWrapper s2) = true) by (apply W, W1).
  assert (E3 : scale s3 = MIN_SCALE).
  { unfold s3, wheel. rewrite (H2 W2 R2).
    destruct (K2 R2) as (B & _). apply B. rewrite E2. reflexivity. }
  destruct (@wheel_zero_delta_zooms_out Sample.env Sample.flatWheel s3 Z)
    as (_ & _ & _ & K3).
  assert (R3 : in_range (scale s3) = true) by (rewrite E3; reflexivity).
  destruct (K3 R3) as (_ & _ & _ & D).
  split; [exact E1|]. split; [exact E2|]. split; [exact E3|].
  apply D. rewrite E3. reflexivity.
Defined.

Lemma arrow_key_step (env : Env float) (s : State float) :
  truthy (mapContainer s) = true ->
  let press k := fst (onKeyDown env (mkKey k) s) in
  (transform (press "ArrowRight"%string) = (scale s, translateX s - PAN_STEP, translateY s) /\
   truthy (mapContainer (press "ArrowRight"%string)) = true) /\
  (transform (press "ArrowLeft"%string) = (scale s, translateX s + PAN_STEP, translateY s) /\
   truthy (mapContainer (press "ArrowLeft"%string)) = true) /\
  (transform (press "ArrowDown"%string) = (scale s, translateX s, translateY s - PAN_STEP) /\
   truthy (mapContainer (press "ArrowDown"%string)) = true) /\
  (transform (press "ArrowUp"%string) = (scale s, translateX s, translateY s + PAN_STEP) /\
   truthy (mapContainer (press "ArrowUp"%string)) = true).
Proof.
  intros C press. subst press. unfold onKeyDown. rewrite C.
  cbn [negb key String.eqb Ascii.eqb Bool.eqb orb fst].
  rewrite !applyTransform_transform.
  repeat split; unfold applyTransform; cases s; reflexivity || assumption.
Qed.

(** C8.  With the container resolved, every key the handler has a case for
    suppresses the default action, and an arrow key moves the translate by
    PAN_STEP = 30 along its axis and leaves the scale: ArrowRight and
    ArrowDown subtract, ArrowLeft and ArrowUp add.  From translate 0,
    ArrowRight gives translateX = -30 and ArrowLeft after it gives 0 again;
    ArrowDown and ArrowUp do the same to translateY. *)
Theorem arrow_keys_pan (env : Env float) (s : State float) :
  truthy (mapContainer s) = true ->
  let press k st := onKeyDown env (mkKey k) st in
  Forall (fun k => snd (press k s) = true) handled_keys /\
  PAN_STEP = 30%float /\
  transform (fst (press "ArrowRight"%string s))
  = (scale s, translateX s - PAN_STEP, translateY s) /\
  transform (fst (press "ArrowLeft"%string s))
  = (scale s, translateX s + PAN_STEP, translateY s) /\
  transform (fst (press "ArrowDown"%string s))
  = (scale s, translateX s, translateY s - PAN_STEP) /\
  transform (fst (press "ArrowUp"%string s))
  = (scale s, translateX s, translateY s + PAN_STEP) /\
  (translateX s = 0%float ->
   translateX (fst (press "ArrowRight"%string s)) = (-30)%float /\
   translateX (fst (press "ArrowLeft"%string (fst (press "ArrowRight"%string s))))
   = 0%float) /\
  (translateY s = 0%float ->
   translateY (fst (press "ArrowDown"%string s)) = (-30)%float /\
   translateY (fst (press "ArrowUp"%string (fst (press "ArrowDown"%string s))))
   = 0%float).
Proof.
  intros C press. subst press. cbv beta.
  destruct (arrow_key_step env s C) as ((R & CR) & (L & _) & (D & CD) & (U & _)).
  cbv zeta in *.
  split; [repeat constructor; unfold onKeyDown; rewrite C; reflexivity|].
  split; [reflexivity|].
  repeat (split; [assumption|]).
  split; intros Z.
  - destruct (arrow_key_step env _ CR) as (_ & (L' & _) & _). cbv zeta in L'.
    injection R as _ RX _. injection L' as _ LX _.
    rewrite LX, RX, Z. split; reflexivity.
  - destruct (arrow_key_step env _ CD) as (_ & _ & _ & (U' & _)). cbv zeta in U'.
    injection D as _ _ DY. injection U' as _ _ UY.
    rewrite UY, DY, Z. split; reflexivity.
Qed.

Lemma arrow_keys_pan_witness :
  truthy (mapContainer (boot Sample.mapPage)) = true /\
  translateX (boot Sample.mapPage) = 0%float /\
  translateX (fst (onKeyDown Sample.env (mkKey "ArrowRight") (boot Sample.mapPage)))
  = (-30)%float /\
  translateX (fst (onKeyDown Sample.env (mkKey "ArrowLeft")
                     (fst (onKeyDown Sample.env (mkKey "ArrowRight")
                             (boot Sample.mapPage)))))
  = 0%float.
Proof.
  split; [reflexivity|]. split; [reflexivity|].
  destruct (@arrow_keys_pan Sample.env (boot Sample.mapPage) eq_refl)
    as (_ & _ & _ & _ & _ & _ & H & _).
  exact (H eq_refl).
Defined.

Lemma onMouseMove_idle (e : MouseEvent float) (s : State float) :
  isDragging s = false -> onMouseMove e s = s.
Proof. intros H. unfold onMouseMove. rewrite H. reflexivity. Qed.

Lemma onTouchMove_idle (env : Env float) (e : TouchEvent float) (s : State float) :
  List.length (touches e) = 1%nat -> isDragging s = false ->
  onTouchMove env e s = Ok (s, true).
Proof.
  intros L H. destruct (touches e) as [|t0 [|t1 ts]] eqn:T; try discriminate L.
  rewrite (onTouchMove_one env e s T), H. reflexivity.
Qed.

(** C5, at the failing input.  A mouse move and a one-finger move that
    arrive while no drag is on change nothing.  A two-finger move that
    arrives while no pinch baseline has been taken does: on the freshly
    loaded page, or after three fingers came down at once and one was
    lifted, two touch points 200 pixels apart are measured against the
    baseline 0 and take the scale from 1 to 2. *)
Theorem two_touch_move_without_baseline_rescales :
  (forall (e : MouseEvent float) (s : State float),
     isDragging s = false -> onMouseMove e s = s) /\
  (forall (env : Env float) (e : TouchEvent float) (s : State float),
     List.length (touches e) = 1%nat -> isDragging s = false ->
     onTouchMove env e s = Ok (s, true)) /\
  isDragging (boot Sample.mapPage) = false /\
  lastPinchDist (boot Sample.mapPage) = 0%float /\
  scale (boot Sample.mapPage) = 1%float /\
  (exists s',
     deliver Sample.env (TouchMove Sample.spread) (boot Sample.mapPage) = Ok s' /\
     scale s' = 2%float /\ lastPinchDist s' = 200%float) /\
  (exists s',
     run [(Sample.env, TouchStart Sample.threeTouches);
          (Sample.env, TouchEnd Sample.twoTouches);
          (Sample.env, TouchMove Sample.spread)] (boot Sample.mapPage) = Ok s' /\
     scale s' = 2%float /\ lastPinchDist s' = 200%float).
Proof.
  split; [exact onMouseMove_idle|]. split; [exact onTouchMove_idle|].
  repeat (split; [reflexivity|]).
  split; eexists; (split; [vm_compute; reflexivity|]); split; reflexivity.
Qed.

(** C4 fails as stated.  After a second finger has set the pinch baseline
    to 100, a touch-end that leaves one finger leaves the baseline at 100,
    not at zero. *)
Lemma touchend_with_one_touch_left_keeps_baseline :
  exists s',
    run [(Sample.env, TouchStart Sample.twoTouches); (Sample.env, TouchEnd Sample.oneTouch)]
      (boot Sample.mapPage) = Ok s' /\
    List.length (touches Sample.oneTouch) = 1%nat /\
    lastPinchDist s' = 100%float /\
    (lastPinchDist s' === lit 0) = false.
Proof.
  eexists. split; [vm_compute; reflexivity|]. repeat split.
Qed.

(** C6 fails as stated.  On a page with the wrapper but without the
    container no listener is registered, and [zoomIn] takes the transform
    from (1, 0, 0) to (1.2, -190, -104) and writes it to the wrapper. *)
Lemma zoomIn_without_container_zooms :
  let s := boot Sample.wrapperOnly in
  truthy (doc_mapContainer Sample.wrapperOnly) = false /\
  listeners s = [] /\
  transform s = (1, 0, 0)%float /\
  transform (zoomIn Sample.env s) = (lit 1.2, -190, -104)%float /\
  (scale (zoomIn Sample.env s) === scale s) = false /\
  mapWrapper (zoomIn Sample.env s)
  = Some (mkWrapper (Some (mkCss (-190) (-104) (lit 1.2))))%float.
Proof. cbv zeta. repeat split. Qed.

(** C1, at the failing input.  On the freshly loaded page, with the
    transform origin at the wrapper's corner, a wheel zoom keeps the point
    under the cursor where it is.  After a drag by (50, 30) it does not:
    [zoomAround] takes the offset of the cursor from the box the browser
    reports, which has followed the drag, and computes the new translate
    from that offset alone, so the translate of the drag is lost.  The
    wheel at (500, 350) takes the content point shown there to (450, 320),
    or to (370, 260) when the transform origin is the wrapper's centre.
    Two fingers that move without changing their distance call
    [zoomAround] with the scale the page has; the translate goes from
    (50, 30) to (0, 0), and the content point shown between the fingers,
    at (360, 205), goes to (310, 175), whichever the transform origin. *)
Theorem zoomAround_moves_the_anchor_on_a_panned_map :
  (exists s0 : State float,
     rendered Sample.cornerLayout (boot Sample.mapPage) Sample.env /\
     shownAt Sample.cornerLayout (boot Sample.mapPage) (490, 330)%float
     = Some (500, 350)%float /\
     deliver Sample.env (Wheel Sample.wheelIn) (boot Sample.mapPage) = Ok s0 /\
     transform s0 = (lit 1.2, -98, -66)%float /\
     shownAt Sample.cornerLayout s0 (490, 330)%float = Some (500, 350)%float) /\
  exists s s1 s2 : State float,
    run Sample.dragBy_50_30 (boot Sample.mapPage) = Ok s /\
    transform s = (1, 50, 30)%float /\
    (forall l : Layout float,
       l = Sample.cornerLayout \/ l = Sample.centreLayout ->
       rendered l s Sample.pannedEnv /\
       shownAt l s (440, 300)%float = Some (500, 350)%float /\
       shownAt l s (300, 155)%float = Some (360, 205)%float) /\
    deliver Sample.pannedEnv (Wheel Sample.wheelIn) s = Ok s1 /\
    transform s1 = (lit 1.2, -88, -60)%float /\
    shownAt Sample.cornerLayout s1 (440, 300)%float = Some (450, 320)%float /\
    shownAt Sample.centreLayout s1 (440, 300)%float = Some (370, 260)%float /\
    run [(Sample.pannedEnv, TouchStart Sample.twoTouches);
         (Sample.pannedEnv, TouchMove Sample.parallel)] s = Ok s2 /\
    transform s2 = (1, 0, 0)%float /\
    (forall l : Layout float,
       l = Sample.cornerLayout \/ l = Sample.centreLayout ->
       shownAt l s2 (300, 155)%float = Some (310, 175)%float).
Proof.
  split.
  - eexists. split; [reflexivity|]. split; [reflexivity|].
    split; [vm_compute; reflexivity|]. split; reflexivity.
  - do 3 eexists. split; [vm_compute; reflexivity|]. split; [reflexivity|].
    split; [intros l [->| ->]; repeat split|].
    split; [vm_compute; reflexivity|]. split; [reflexivity|].
    split; [reflexivity|]. split; [reflexivity|].
    split; [vm_compute; reflexivity|]. split; [reflexivity|].
    intros l [->| ->]; reflexivity.
Qed.

(** The overflow that [finite_pinch] excludes: two touch-moves with a touch
    point at 2^600 make the distance infinite, then the pinch delta
    infinity - infinity, and the scale NaN. *)
Example pinch_overflow :
  finite_pinch (TouchMove Sample.offScreen) = false /\
  exists s',
    run [(Sample.env, TouchMove Sample.offScreen); (Sample.env, TouchMove Sample.offScreen)]
      (boot Sample.mapPage) = Ok s' /\
    is_nan (scale s') = true.
Proof. split; [reflexivity|]. eexists. split; [vm_compute; reflexivity | reflexivity]. Qed.

End PropertiesOnBinary64.

(** ** The properties at sample inputs *)

Section Witnesses.
Local Open Scope num_scope.

Lemma drag_follows_pointer_witness :
  button Sample.press = 0%Z /\
  exists s1,
    onMouseDown Sample.press (boot Sample.mapPage) = Ok (s1, true) /\
    let s' := fold_left (fun st m => onMouseMove m st)
                ([Sample.move1] ++ [Sample.move2]) s1 in
    translateX s' = 40%float /\ translateY s' = 50%float.
Proof.
  split; [reflexivity|]. eexists. split; [vm_compute; reflexivity|].
  match goal with
  | |- let s' := fold_left _ _ ?s1 in _ =>
      assert (B : button Sample.press = 0%Z) by reflexivity;
      assert (D : onMouseDown Sample.press (boot Sample.mapPage) = Ok (s1, true))
        by reflexivity;
      destruct (@drag_follows_pointer _ _ _ _ _ _ [Sample.move1] Sample.move2 B D) as [HX HY]
  end.
  cbv zeta. rewrite HX, HY. split; reflexivity.
Defined.

Lemma resetView_keeps_drag_witness :
  exists s1,
    run [(Sample.env, MouseDown Sample.press); (Sample.env, MouseMove Sample.move1)]
      (boot Sample.mapPage) = Ok s1 /\
    isDragging s1 = true /\
    transform s1 = (1, 50, 30)%float /\
    transform (resetView s1) = (1, 0, 0)%float /\
    isDragging (resetView s1) = true /\
    translateX (onMouseMove Sample.move2 (resetView s1)) = 40%float /\
    translateY (onMouseMove Sample.move2 (resetView s1)) = 50%float.
Proof.
  eexists. split; [vm_compute; reflexivity|].
  split; [reflexivity|]. split; [reflexivity|]. split; [reflexivity|].
  match goal with
  | |- isDragging (resetView ?s1) = true /\ _ =>
      destruct (resetView_keeps_drag s1) as ((D & _) & M)
  end.
  split; [rewrite D; reflexivity|].
  destruct (M eq_refl Sample.move2) as [HX HY].
  rewrite HX, HY. split; reflexivity.
Defined.

Lemma onTouchEnd_resets_when_no_touch_is_left_witness :
  let s := set_lastPinchDist 100%float (set_isDragging true (boot Sample.mapPage)) in
  touches (@mkTouches float []) = [] /\
  lastPinchDist (onTouchEnd (mkTouches []) s) = 0%float /\
  isDragging (onTouchEnd (mkTouches []) s) = false /\
  touches Sample.oneTouch <> [] /\
  onTouchEnd Sample.oneTouch s = s.
Proof.
  intros s.
  destruct (onTouchEnd_resets_when_no_touch_is_left (mkTouches []) s) as [H _].
  destruct (onTouchEnd_resets_when_no_touch_is_left Sample.oneTouch s) as [_ K].
  destruct (H eq_refl) as (D & P & _).
  assert (T : touches Sample.oneTouch <> []) by discriminate.
  split; [reflexivity|]. split; [exact P|]. split; [exact D|].
  split; [exact T | exact (K T)].
Defined.

Lemma disabled_widget_witness :
  (truthy (doc_mapContainer Sample.otherPage) = false \/
   truthy (doc_mapWrapper Sample.otherPage) = false) /\
  listeners (boot Sample.otherPage) = [] /\
  transform (resetView (boot Sample.otherPage)) = (1, 0, 0)%float /\
  zoomIn Sample.env (boot Sample.otherPage) = boot Sample.otherPage /\
  zoomOut Sample.env (boot Sample.otherPage) = boot Sample.otherPage /\
  resetView (boot Sample.otherPage) = boot Sample.otherPage.
Proof.
  assert (H : truthy (doc_mapContainer Sample.otherPage) = false \/
              truthy (doc_mapWrapper Sample.otherPage) = false)
    by (left; reflexivity).
  split; [exact H|].
  destruct (disabled_widget Sample.otherPage H) as (L & _ & _ & _ & R & W & _).
  split; [exact L|]. split; [exact R|]. exact (W eq_refl Sample.env).
Defined.

End Witnesses.

(** ** Further properties, in any arithmetic *)

Section PageInvariants.
Context {N : Type} {Nm : Number N}.
Local Open Scope num_scope.

Lemma applyTransform_page (s : State N) :
  listeners (applyTransform s) = listeners s /\
  resolved (applyTransform s) = resolved s /\
  mapContainer (applyTransform s) = mapContainer s /\
  gesture (applyTransform s) = gesture s.
Proof. unfold applyTransform, resolved, gesture. cases s; repeat split. Qed.

Lemma zoomAround_page (env : Env N) (newScale cx cy : N) (s : State N) :
  listeners (zoomAround env newScale cx cy s) = listeners s /\
  resolved (zoomAround env newScale cx cy s) = resolved s /\
  mapContainer (zoomAround env newScale cx cy s) = mapContainer s /\
  gesture (zoomAround env newScale cx cy s) = gesture s.
Proof. unfold zoomAround, applyTransform, resolved, gesture. cases s; repeat split. Qed.

Lemma zoomIn_page (env : Env N) (s : State N) :
  listeners (zoomIn env s) = listeners s /\
  resolved (zoomIn env s) = resolved s /\
  mapContainer (zoomIn env s) = mapContainer s /\
  gesture (zoomIn env s) = gesture s.
Proof.
  unfold zoomIn. destruct (_ === _); [repeat split | apply zoomAround_page].
Qed.

Lemma zoomOut_page (env : Env N) (s : State N) :
  listeners (zoomOut env s) = listeners s /\
  resolved (zoomOut env s) = resolved s /\
  mapContainer (zoomOut env s) = mapContainer s /\
  gesture (zoomOut env s) = gesture s.
Proof.
  unfold zoomOut. destruct (_ === _); [repeat split | apply zoomAround_page].
Qed.

Lemma resetView_page (s : State N) :
  listeners (resetView s) = listeners s /\
  resolved (resetView s) = resolved s /\
  mapContainer (resetView s) = mapContainer s /\
  gesture (resetView s) = gesture s.
Proof. unfold resetView, applyTransform, resolved, gesture. cases s; repeat split. Qed.

Lemma onWheel_page (env : Env N) (e : WheelEvent N) (s : State N) :
  listeners (fst (onWheel env e s)) = listeners s /\
  resolved (fst (onWheel env e s)) = resolved s /\
  mapContainer (fst (onWheel env e s)) = mapContainer s /\
  gesture (fst (onWheel env e s)) = gesture s.
Proof.
  unfold onWheel. cbn [fst].
  destruct (_ === _); cbn [negb]; [repeat split | apply zoomAround_page].
Qed.

Lemma onMouseMove_page (e : MouseEvent N) (s : State N) :
  listeners (onMouseMove e s) = listeners s /\
  resolved (onMouseMove e s) = resolved s /\
  mapContainer (onMouseMove e s) = mapContainer s /\
  gesture (onMouseMove e s) = gesture s.
Proof. unfold onMouseMove, applyTransform, resolved, gesture. cases s; repeat split. Qed.

Lemma run_app (evs1 evs2 : list (Env N * Event N)) :
  forall s : State N,
  run (evs1 ++ evs2) s = (s1 <- run evs1 s ;; run evs2 s1).
Proof.
  induction evs1 as [|[env ev] evs1 IH]; intros s; cbn [app run bind]; trivial.
  destruct (deliver env ev s); cbn [bind]; auto.
Qed.

Lemma onKeyDown_page (env : Env N) (e : KeyboardEvent) (s : State N) :
  listeners (fst (onKeyDown env e s)) = listeners s /\
  resolved (fst (onKeyDown env e s)) = resolved s /\
  mapContainer (fst (onKeyDown env e s)) = mapContainer s /\
  gesture (fst (onKeyDown env e s)) = gesture s.
Proof.
  unfold onKeyDown.
  destruct (negb (truthy (mapContainer s))); cbn [fst]; [repeat split|].
  repeat match goal with
  | |- context [if ?b then _ else _] => destruct b; cbn [fst]
  end;
    try apply zoomIn_page; try apply zoomOut_page; try apply resetView_page;
    try (repeat split; fail);
    match goal with
    | |- context [applyTransform ?t] =>
        destruct (applyTransform_page t) as (L & R & C & G);
        rewrite L, R, C, G; repeat split
    end.
Qed.

Lemma deliver_page (env : Env N) (ev : Event N) (s s' : State N) :
  deliver env ev s = Ok s' ->
  listeners s' = listeners s /\ resolved s' = resolved s.
Proof.
  destruct ev; cbn [deliver];
    try match goal with
    | |- context [listening ?t ?ty s] =>
        destruct (listening t ty s); [|intros [= <-]; split; reflexivity]
    end.
  - intros [= <-]. split; apply zoomIn_page.
  - intros [= <-]. split; apply zoomOut_page.
  - intros [= <-]. split; apply resetView_page.
  - unfold onMouseDown, resolved. destruct (negb _);
      cases s; intros [= <-]; split; reflexivity.
  - intros [= <-]. unfold onMouseMove, applyTransform, resolved.
    cases s; split; reflexivity.
  - unfold onMouseUp, resolved. cases s; intros [= <-]; split; reflexivity.
  - intros [= <-]. split; apply onWheel_page.
  - destruct (touches e) as [|t0 [|t1 [|t2 ts]]] eqn:T.
    + rewrite onTouchStart_other by (rewrite T; discriminate).
      intros [= <-]. split; reflexivity.
    + rewrite (onTouchStart_one e s T). intros [= <-]. split; reflexivity.
    + rewrite (onTouchStart_two e s T (getTouchDist_two t0 t1)).
      intros [= <-]. split; reflexivity.
    + rewrite onTouchStart_other by (rewrite T; discriminate).
      intros [= <-]. split; reflexivity.
  - destruct (touches e) as [|t0 [|t1 [|t2 ts]]] eqn:T.
    + rewrite onTouchMove_other by (rewrite T; discriminate).
      cbn. intros [= <-]. split; reflexivity.
    + rewrite (onTouchMove_one env e s T). destruct (isDragging s); cbn;
        intros [= <-]; [|split; reflexivity].
      match goal with
      | |- context [applyTransform ?t] =>
          destruct (applyTransform_page t) as (L & R & _); rewrite L, R
      end. split; reflexivity.
    + rewrite (onTouchMove_two env e s T (getTouchDist_two t0 t1)).
      cbn. intros [= <-].
      match goal with
      | |- context [zoomAround ?a ?b ?c ?d ?t] =>
          destruct (zoomAround_page a b c d t) as (L & R & _)
      end.
      unfold resolved in *. cbn. split; assumption.
    + rewrite onTouchMove_other by (rewrite T; discriminate).
      cbn. intros [= <-]. split; reflexivity.
  - intros [= <-]. unfold onTouchEnd. destruct (_ =? _)%nat; split; reflexivity.
  - intros [= <-]. split; apply onKeyDown_page.
  - intros [= <-]. split; reflexivity.
Qed.

Lemma run_page (evs : list (Env N * Event N)) :
  forall s s' : State N,
  run evs s = Ok s' -> listeners s' = listeners s /\ resolved s' = resolved s.
Proof.
  induction evs as [|[env ev] evs IH]; intros s s'; cbn [run].
  - intros [= <-]. split; reflexivity.
  - destruct (deliver env ev s) as [s1|] eqn:D; cbn [bind]; [|discriminate].
    intros R. destruct (deliver_page _ _ _ D) as [L1 R1].
    destruct (IH _ _ R) as [L2 R2]. split; congruence.
Qed.

Lemma listening_nil (t : Target) (type : string) (s : State N) :
  listeners s = [] -> listening t type s = false.
Proof. intros H. unfold listening. rewrite H. reflexivity. Qed.

Lemma deliver_safe (env : Env N) (ev : Event N) (s : State N) :
  safe s -> exists s', deliver env ev s = Ok s'.
Proof.
  intros S.
  destruct ev; cbn [deliver];
    try match goal with
    | |- context [listening ?t ?ty s] =>
        destruct (listening t ty s) eqn:L; [|eexists; reflexivity]
    end; try (eexists; reflexivity).
  - destruct S as [S|S]; [rewrite (listening_nil _ _ _ S) in L; discriminate|].
    unfold onMouseDown. destruct (negb _); [eexists; reflexivity|].
    cases s; try discriminate S; eexists; reflexivity.
  - destruct S as [S|S]; [rewrite (listening_nil _ _ _ S) in L; discriminate|].
    unfold onMouseUp. cases s; try discriminate S; eexists; reflexivity.
  - destruct (touches e) as [|t0 [|t1 [|t2 ts]]] eqn:T.
    + rewrite onTouchStart_other by (rewrite T; discriminate). eauto.
    + rewrite (onTouchStart_one e s T). eauto.
    + rewrite (onTouchStart_two e s T (getTouchDist_two t0 t1)). eauto.
    + rewrite onTouchStart_other by (rewrite T; discriminate). eauto.
  - destruct (touches e) as [|t0 [|t1 [|t2 ts]]] eqn:T.
    + rewrite onTouchMove_other by (rewrite T; discriminate). cbn. eauto.
    + rewrite (onTouchMove_one env e s T). destruct (isDragging s); cbn; eauto.
    + rewrite (onTouchMove_two env e s T (getTouchDist_two t0 t1)). cbn. eauto.
    + rewrite onTouchMove_other by (rewrite T; discriminate). cbn. eauto.
Qed.

Lemma safe_deliver (env : Env N) (ev : Event N) (s s' : State N) :
  safe s -> deliver env ev s = Ok s' -> safe s'.
Proof.
  intros S D. destruct (deliver_page _ _ _ D) as [L R].
  unfold safe, resolved in *. injection R as RC _ _. rewrite L, RC. exact S.
Qed.

Lemma safe_boot (doc : Document N) : safe (boot doc).
Proof. destruct doc as [[c|] [w|] [d|]]; cbn; unfold safe; cbn; auto. Qed.

Lemma safe_initial : safe (@initial N _).
Proof. left. reflexivity. Qed.

Lemma run_safe (evs : list (Env N * Event N)) :
  forall s : State N, safe s -> exists s', run evs s = Ok s'.
Proof.
  induction evs as [|[env ev] evs IH]; intros s S; cbn [run].
  - eauto.
  - destruct (deliver_safe env ev S) as [s1 D]. rewrite D. cbn [bind].
    apply IH. eapply safe_deliver; eassumption.
Qed.

(** X1.  Whatever the page holds and whatever events and calls arrive, in
    whatever order, no handler dereferences a missing element or a missing
    touch: the event loop never ends in a TypeError. *)
Theorem event_loop_never_throws (doc : Document N) (evs : list (Env N * Event N)) :
  exists s', run evs (boot doc) = Ok s'.
Proof. apply run_safe, safe_boot. Qed.

(** X2.  No handler registers or removes a listener, and none changes which
    of the three elements are resolved: after any events both are as [init]
    left them. *)
Theorem handlers_keep_listeners_and_elements
    (doc : Document N) (evs : list (Env N * Event N)) (s' : State N) :
  run evs (boot doc) = Ok s' ->
  listeners s' = listeners (boot doc) /\ resolved s' = resolved (boot doc).
Proof. apply run_page. Qed.

(** X3.  Until [init] has run the three elements are undefined and nothing
    is registered: every call of [zoomIn], [zoomOut] and [resetView] and
    every event leaves all variables at their initial values. *)
Theorem nothing_happens_before_init (evs : list (Env N * Event N)) :
  run evs initial = Ok initial.
Proof.
  induction evs as [|[env ev] evs IH]; cbn [run]; trivial.
  rewrite deliver_no_listener by reflexivity.
  assert (E : match ev with
              | CallZoomIn => zoomIn env initial
              | CallZoomOut => zoomOut env initial
              | CallResetView => resetView initial
              | _ => initial
              end = initial).
  { destruct ev; trivial;
      [apply zoomIn_no_wrapper | apply zoomOut_no_wrapper]; reflexivity. }
  rewrite E. exact IH.
Qed.

(** *** The page shows what the variables hold *)

Lemma applyTransform_in_sync (s : State N) :
  truthy (mapWrapper s) = true -> in_sync (applyTransform s).
Proof.
  unfold applyTransform, in_sync. cases s; try discriminate; intros _; auto.
Qed.

Lemma in_sync_wrapper (s : State N) : in_sync s -> truthy (mapWrapper s) = true.
Proof. intros [W _]. rewrite W. reflexivity. Qed.

Lemma in_sync_frame (s s' : State N) :
  transform s' = transform s -> mapWrapper s' = mapWrapper s ->
  zoomDisplay s' = zoomDisplay s -> in_sync s -> in_sync s'.
Proof.
  unfold in_sync, transform. intros [= -> -> ->] -> ->. trivial.
Qed.

Lemma zoomAround_in_sync (env : Env N) (newScale cx cy : N) (s : State N) :
  in_sync s -> in_sync (zoomAround env newScale cx cy s).
Proof.
  intros I. pose proof (in_sync_wrapper I) as W.
  unfold zoomAround. rewrite W. cbn [negb]. apply applyTransform_in_sync. exact W.
Qed.

Lemma zoomIn_in_sync (env : Env N) (s : State N) : in_sync s -> in_sync (zoomIn env s).
Proof.
  intros I. unfold zoomIn. destruct (_ === _); trivial. apply zoomAround_in_sync, I.
Qed.

Lemma zoomOut_in_sync (env : Env N) (s : State N) : in_sync s -> in_sync (zoomOut env s).
Proof.
  intros I. unfold zoomOut. destruct (_ === _); trivial. apply zoomAround_in_sync, I.
Qed.

Lemma resetView_in_sync (s : State N) : in_sync s -> in_sync (resetView s).
Proof.
  intros I. pose proof (in_sync_wrapper I) as W.
  unfold resetView. apply applyTransform_in_sync. exact W.
Qed.

Lemma onKeyDown_in_sync (env : Env N) (e : KeyboardEvent) (s : State N) :
  in_sync s -> in_sync (fst (onKeyDown env e s)).
Proof.
  intros I. pose proof (in_sync_wrapper I) as W. unfold onKeyDown.
  destruct (negb (truthy (mapContainer s))); cbn [fst]; trivial.
  repeat match goal with
  | |- context [if ?b then _ else _] => destruct b; cbn [fst]
  end; trivial;
    try apply zoomIn_in_sync; try apply zoomOut_in_sync;
    try apply resetView_in_sync; trivial;
    apply applyTransform_in_sync; exact W.
Qed.

Lemma deliver_in_sync (env : Env N) (ev : Event N) (s s' : State N) :
  in_sync s -> deliver env ev s = Ok s' -> in_sync s'.
Proof.
  intros I. pose proof (in_sync_wrapper I) as W.
  destruct ev; cbn [deliver];
    try match goal with
    | |- context [listening ?t ?ty s] =>
        destruct (listening t ty s); [|intros [= <-]; exact I]
    end.
  - intros [= <-]. apply zoomIn_in_sync, I.
  - intros [= <-]. apply zoomOut_in_sync, I.
  - intros [= <-]. apply resetView_in_sync, I.
  - unfold onMouseDown. destruct (negb _); cbn [bind].
    + intros [= <-]. exact I.
    + destruct (deref _) as [c|]; cbn [bind fst]; [|discriminate].
      intros [= <-]. revert I. apply in_sync_frame; reflexivity.
  - intros [= <-]. unfold onMouseMove. destruct (negb _); trivial.
    apply applyTransform_in_sync. exact W.
  - unfold onMouseUp. destruct (negb _).
    + intros [= <-]. exact I.
    + destruct (deref _) as [c|]; cbn [bind]; [|discriminate].
      intros [= <-]. revert I. apply in_sync_frame; reflexivity.
  - intros [= <-]. unfold onWheel. cbn [fst].
    destruct (_ === _); cbn [negb]; trivial. apply zoomAround_in_sync, I.
  - destruct (touches e) as [|t0 [|t1 [|t2 ts]]] eqn:T.
    + rewrite onTouchStart_other by (rewrite T; discriminate). intros [= <-]. exact I.
    + rewrite (onTouchStart_one e s T). intros [= <-].
      revert I. apply in_sync_frame; reflexivity.
    + rewrite (onTouchStart_two e s T (getTouchDist_two t0 t1)). intros [= <-].
      revert I. apply in_sync_frame; reflexivity.
    + rewrite onTouchStart_other by (rewrite T; discriminate). intros [= <-]. exact I.
  - destruct (touches e) as [|t0 [|t1 [|t2 ts]]] eqn:T.
    + rewrite onTouchMove_other by (rewrite T; discriminate).
      cbn. intros [= <-]. exact I.
    + rewrite (onTouchMove_one env e s T). destruct (isDragging s); cbn;
        intros [= <-]; trivial.
      apply applyTransform_in_sync. exact W.
    + rewrite (onTouchMove_two env e s T (getTouchDist_two t0 t1)).
      cbn. intros [= <-].
      match goal with
      | |- in_sync (set_lastPinchDist _ ?z) =>
          assert (Z : in_sync z) by (apply zoomAround_in_sync, I);
          revert Z; apply in_sync_frame; reflexivity
      end.
    + rewrite onTouchMove_other by (rewrite T; discriminate).
      cbn. intros [= <-]. exact I.
  - intros [= <-]. unfold onTouchEnd. destruct (_ =? _)%nat; exact I.
  - intros [= <-]. apply onKeyDown_in_sync, I.
  - intros [= <-]. exact I.
Qed.

Lemma run_in_sync (evs : list (Env N * Event N)) :
  forall s s' : State N, in_sync s -> run evs s = Ok s' -> in_sync s'.
Proof.
  induction evs as [|[env ev] evs IH]; intros s s' I; cbn [run].
  - intros [= <-]. exact I.
  - destruct (deliver env ev s) as [s1|] eqn:D; cbn [bind]; [|discriminate].
    apply IH. eapply deliver_in_sync; eassumption.
Qed.

Lemma boot_in_sync (doc : Document N) :
  truthy (doc_mapContainer doc) = true -> truthy (doc_mapWrapper doc) = true ->
  in_sync (boot doc).
Proof.
  destruct doc as [[c|] [w|] [d|]]; cbn; try discriminate; intros _ _;
    unfold in_sync; cbn; auto.
Qed.

(** X4.  On a page with the container and the wrapper, after [init] and
    after every event and call, the transform written to the wrapper's
    style is the one the variables hold, and the readout, when there is
    one, is scale * 100: no handler changes scale or translate without
    rendering. *)
Theorem page_shows_the_transform
    (doc : Document N) (evs : list (Env N * Event N)) (s' : State N) :
  truthy (doc_mapContainer doc) = true -> truthy (doc_mapWrapper doc) = true ->
  run evs (boot doc) = Ok s' -> in_sync s'.
Proof.
  intros C W. apply run_in_sync, boot_in_sync; assumption.
Qed.

End PageInvariants.

Section Gestures.
Context {N : Type} {Nm : Number N}.
Local Open Scope num_scope.

(** *** The grabbing class *)

Lemma deliver_grabbing (env : Env N) (ev : Event N) (s s' : State N) :
  touchless ev = true ->
  mapContainer s = Some (mkContainer (isDragging s)) ->
  deliver env ev s = Ok s' ->
  mapContainer s' = Some (mkContainer (isDragging s')).
Proof.
  intros T G.
  assert (F : forall t : State N,
            mapContainer t = mapContainer s -> gesture t = gesture s ->
            mapContainer t = Some (mkContainer (isDragging t))).
  { intros t C [= D _ _ _ _ _]. rewrite C, D. exact G. }
  destruct ev; try discriminate T; cbn [deliver];
    try match goal with
    | |- context [listening ?t ?ty s] =>
        destruct (listening t ty s); [|intros [= <-]; exact G]
    end.
  - intros [= <-]. apply F; apply zoomIn_page.
  - intros [= <-]. apply F; apply zoomOut_page.
  - intros [= <-]. apply F; apply resetView_page.
  - unfold onMouseDown. destruct (negb _); cbn [bind].
    + intros [= <-]. exact G.
    + destruct (deref _) as [c|]; cbn [bind fst]; [|discriminate].
      intros [= <-]. reflexivity.
  - intros [= <-]. apply F; apply onMouseMove_page.
  - unfold onMouseUp. destruct (negb (isDragging s)) eqn:D.
    + intros [= <-]. exact G.
    + destruct (deref _) as [c|]; cbn [bind]; [|discriminate].
      intros [= <-]. reflexivity.
  - intros [= <-]. apply F; apply onWheel_page.
  - intros [= <-]. apply F; apply onKeyDown_page.
  - intros [= <-]. exact G.
Qed.

Lemma boot_not_grabbing (doc : Document N) :
  doc_mapContainer doc = Some (mkContainer false) ->
  mapContainer (boot doc) = Some (mkContainer (isDragging (boot doc))).
Proof.
  destruct doc as [c [w|] [d|]]; cbn; intros ->; reflexivity.
Qed.

(** X5.  On a page whose container does not carry the class [grabbing] when
    the script starts, and as long as no touch event arrives, the container
    carries [grabbing] exactly while a drag is on: the mouse handlers set
    and clear the class together with [isDragging], and no other handler
    touches either. *)
Theorem grabbing_while_dragging
    (doc : Document N) (evs : list (Env N * Event N)) (s' : State N) :
  doc_mapContainer doc = Some (mkContainer false) ->
  Forall (fun p => touchless (snd p) = true) evs ->
  run evs (boot doc) = Ok s' ->
  mapContainer s' = Some (mkContainer (isDragging s')).
Proof.
  intros C F. pose proof (boot_not_grabbing doc C) as G. revert G.
  generalize (boot doc). induction F as [|[env ev] evs T _ IH]; intros s G; cbn [run].
  - intros [= <-]. exact G.
  - destruct (deliver env ev s) as [s1|] eqn:D; cbn [bind]; [|discriminate].
    apply IH. eapply deliver_grabbing; eassumption.
Qed.

(** *** Which handlers assign the scale *)

Lemma not_zoom_key (k : string) :
  existsb (String.eqb k) zoom_keys = false ->
  (k =? "+")%string = false /\ (k =? "=")%string = false /\
  (k =? "-")%string = false /\ (k =? "_")%string = false /\
  (k =? "0")%string = false.
Proof.
  cbn [existsb zoom_keys]. rewrite !orb_false_iff. tauto.
Qed.

(** X6.  Only the calls, the wheel, a two-finger move and the keys + = - _
    and 0 assign the scale: a mouse press, move or release, a touch start or
    end, a move with another number of fingers, every other key and the
    context menu leave the scale as it is. *)
Theorem only_zoom_events_change_the_scale
    (env : Env N) (ev : Event N) (s s' : State N) :
  rescales ev = false -> deliver env ev s = Ok s' -> scale s' = scale s.
Proof.
  intros R.
  destruct ev; try discriminate R; cbn [deliver];
    try match goal with
    | |- context [listening ?t ?ty s] =>
        destruct (listening t ty s); [|intros [= <-]; reflexivity]
    end.
  - unfold onMouseDown. cases s; destruct (negb _); intros [= <-]; reflexivity.
  - intros [= <-]. unfold onMouseMove, applyTransform. cases s; reflexivity.
  - unfold onMouseUp. cases s; intros [= <-]; reflexivity.
  - destruct (touches e) as [|t0 [|t1 [|t2 ts]]] eqn:T.
    + rewrite onTouchStart_other by (rewrite T; discriminate). now intros [= <-].
    + rewrite (onTouchStart_one e s T). now intros [= <-].
    + rewrite (onTouchStart_two e s T (getTouchDist_two t0 t1)). now intros [= <-].
    + rewrite onTouchStart_other by (rewrite T; discriminate). now intros [= <-].
  - cbn [rescales] in R. destruct (touches e) as [|t0 [|t1 [|t2 ts]]] eqn:T;
      try discriminate R.
    + rewrite onTouchMove_other by (rewrite T; discriminate). cbn. now intros [= <-].
    + rewrite (onTouchMove_one env e s T). destruct (isDragging s); cbn;
        intros [= <-]; trivial.
      unfold applyTransform. cases s; reflexivity.
    + rewrite onTouchMove_other by (rewrite T; discriminate). cbn. now intros [= <-].
  - intros [= <-]. unfold onTouchEnd. destruct (_ =? _)%nat; reflexivity.
  - intros [= <-]. cbn [rescales] in R.
    destruct (not_zoom_key _ R) as (K1 & K2 & K3 & K4 & K5).
    unfold onKeyDown. destruct (negb _); cbn [fst]; trivial.
    rewrite K1, K2, K3, K4, K5. cbn [orb].
    repeat match goal with
    | |- context [if ?b then _ else _] => destruct b; cbn [fst]
    end; trivial; unfold applyTransform; cases s; reflexivity.
  - now intros [= <-].
Qed.

(** X7.  [zoomIn], [zoomOut] and the wheel handler leave the drag state and
    the pinch baseline as they were; so when one of them runs while a drag
    is on, the next mouse move replaces the translate the zoom computed by
    the drag origin plus the pointer's way since the press. *)
Theorem zoom_keeps_drag (env : Env N) (s : State N) :
  let zooms (t : State N) :=
    t = zoomIn env s \/ t = zoomOut env s \/
    exists e : WheelEvent N, t = fst (onWheel env e s) in
  forall t : State N, zooms t ->
  gesture t = gesture s /\
  (isDragging s = true ->
   forall e : MouseEvent N,
   translateX (onMouseMove e t) = dragOriginX s + (clientX e - dragStartX s) /\
   translateY (onMouseMove e t) = dragOriginY s + (clientY e - dragStartY s)).
Proof.
  intros zooms t Z.
  assert (G : gesture t = gesture s).
  { destruct Z as [-> | [-> | [e ->]]];
      [apply zoomIn_page | apply zoomOut_page | apply onWheel_page]. }
  split; [exact G|]. injection G as D SX SY OX OY _. intros H e.
  destruct (onMouseMove_dragging e t) as [HX HY]; [congruence|].
  rewrite HX, HY. split; congruence.
Qed.

(** *** Keys *)

Lemma eqb_of_not_in (k x : string) (l : list string) :
  ~ In k l -> In x l -> (k =? x)%string = false.
Proof.
  intros H I. apply String.eqb_neq. intros ->. exact (H I).
Qed.

(** X8.  A key the handler has no case for changes nothing and is left to
    the browser; and without the container every key is. *)
Theorem other_keys_are_ignored (env : Env N) (k : string) (s : State N) :
  ~ In k handled_keys \/ truthy (mapContainer s) = false ->
  onKeyDown env (mkKey k) s = (s, false).
Proof.
  intros [H|H]; unfold onKeyDown; cbn [key];
    [|rewrite H; reflexivity].
  destruct (negb _); trivial.
  rewrite !(@eqb_of_not_in k _ handled_keys H) by (cbn; tauto). reflexivity.
Qed.

(** *** Touches *)

(** X9.  [getTouchDist] reads the first two touch points only: it throws
    exactly when the list holds fewer than two, and further touch points do
    not change its result. *)
Theorem getTouchDist_reads_two_touches (ts : list (Touch N)) :
  (getTouchDist ts = TypeError <-> (List.length ts < 2)%nat) /\
  (forall (t0 t1 : Touch N) (rest : list (Touch N)),
     ts = t0 :: t1 :: rest -> getTouchDist ts = getTouchDist [t0; t1]).
Proof.
  split.
  - destruct ts as [|t0 [|t1 rest]]; cbn; split; intros H;
      try reflexivity; try discriminate H; lia.
  - intros t0 t1 rest ->. reflexivity.
Qed.

Lemma touch_moves_keep_drag (moves : list (Env N * TouchEvent N)) :
  forall s : State N,
  Forall (fun p => List.length (touches (snd p)) = 1%nat) moves ->
  listening OnContainer "touchmove" s = true ->
  exists s',
    run (map (fun p => (fst p, TouchMove (snd p))) moves) s = Ok s' /\
    gesture s' = gesture s /\ listeners s' = listeners s /\
    (moves = [] -> s' = s).
Proof.
  induction moves as [|[env m] moves IH]; intros s F L; cbn [map run fst snd].
  - exists s. repeat split.
  - inversion F as [|? ? F1 F2]; subst. cbn [snd] in F1.
    cbn [deliver]. rewrite L.
    destruct (touches m) as [|t0 [|t1 ts]] eqn:T; try discriminate F1.
    rewrite (onTouchMove_one env m s T).
    assert (K : forall t : State N,
              gesture t = gesture s -> listeners t = listeners s ->
              exists s',
                run (map (fun p => (fst p, TouchMove (snd p))) moves) t = Ok s' /\
                gesture s' = gesture s /\ listeners s' = listeners s /\
                ((env, m) :: moves = [] -> s' = s)).
    { intros t G Ls. destruct (IH t F2) as (s' & R & G' & L' & _).
      - unfold listening in *. rewrite Ls. exact L.
      - exists s'. repeat split; congruence. }
    destruct (isDragging s); cbn [bind fst]; apply K; trivial;
      match goal with
      | |- context [applyTransform ?t] =>
          destruct (applyTransform_page t) as (La & _ & _ & Ga); rewrite ?La, ?Ga
      end; reflexivity.
Qed.

(** X10.  A one-finger drag behaves like a mouse drag: after a touch-start
    with one touch point at p0 on a page that listens, and any number of
    one-finger moves ending at p, no handler has thrown and the translate
    is the one at the touch-start plus (p - p0), whatever the moves in
    between were. *)
Theorem touch_drag_follows_finger
    (s : State N) (env0 env : Env N) (e0 e : TouchEvent N) (t0 t : Touch N)
    (moves : list (Env N * TouchEvent N)) :
  listening OnContainer "touchstart" s = true ->
  listening OnContainer "touchmove" s = true ->
  touches e0 = [t0] -> touches e = [t] ->
  Forall (fun p => List.length (touches (snd p)) = 1%nat) moves ->
  exists s',
    run ((env0, TouchStart e0)
           :: map (fun p => (fst p, TouchMove (snd p))) (moves ++ [(env, e)])) s
    = Ok s' /\
    translateX s' = translateX s + (touchX t - touchX t0) /\
    translateY s' = translateY s + (touchY t - touchY t0).
Proof.
  intros L0 L T0 T F.
  cbn [run deliver]. rewrite L0, (onTouchStart_one e0 s T0). cbn [bind].
  set (s1 := set_dragOriginY _ _).
  assert (L1 : listening OnContainer "touchmove" s1 = true) by exact L.
  destruct (touch_moves_keep_drag s1 F L1) as (s2 & R & G & Ls & _).
  rewrite map_app, run_app, R. cbn [bind map run fst snd deliver].
  assert (L2 : listening OnContainer "touchmove" s2 = true)
    by (unfold listening in *; rewrite Ls; exact L1).
  rewrite L2, (onTouchMove_one env e s2 T).
  injection G as D SX SY OX OY _. subst s1. cbn in D, SX, SY, OX, OY.
  rewrite D. cbn [bind fst]. eexists. split; [reflexivity|].
  unfold applyTransform. cases s2; subst; split; reflexivity.
Qed.

(** X11.  A second finger takes the drag over: a touch-start with two touch
    points never throws, ends the drag, records their distance and leaves
    the transform where it is; and after it, neither a touch-end that
    leaves a finger nor the one-finger moves that follow change
    anything. *)
Theorem pinch_takes_over_the_drag
    (s : State N) (e2 : TouchEvent N) (a b : Touch N) :
  touches e2 = [a; b] ->
  exists s1,
    onTouchStart e2 s = Ok s1 /\
    isDragging s1 = false /\
    getTouchDist [a; b] = Ok (lastPinchDist s1) /\
    transform s1 = transform s /\
    (forall (env : Env N) (e1 m : TouchEvent N),
       touches e1 <> [] -> List.length (touches m) = 1%nat ->
       onTouchEnd e1 s1 = s1 /\ onTouchMove env m s1 = Ok (s1, true)).
Proof.
  intros T. rewrite (onTouchStart_two e2 s T (getTouchDist_two a b)).
  eexists. split; [reflexivity|]. split; [reflexivity|].
  split; [reflexivity|]. split; [reflexivity|].
  intros env e1 m H1 Hm. split.
  - unfold onTouchEnd. destruct (touches e1); [now destruct H1 | reflexivity].
  - destruct (touches m) as [|t0 [|t1 ts]] eqn:Tm; try discriminate Hm.
    rewrite (onTouchMove_one env m _ Tm). reflexivity.
Qed.

End Gestures.

(** ** Further properties on binary64 *)

Section MoreOnBinary64.
Import Binary64 Binary64Facts Binary64Order.
Local Open Scope num_scope.

(** X12.  [clamp] bounds every number: when min <= max, the result for a
    value that is not NaN lies between min and max, both included.  It does
    not bound NaN: for NaN the result is NaN. *)
Theorem clamp_bounds (val lo hi : float) :
  (lo <=? hi)%float = true ->
  (number val = true ->
   (lo <=? clamp val lo hi)%float = true /\ (clamp val lo hi <=? hi)%float = true) /\
  (number val = false -> clamp val lo hi = nan).
Proof.
  intros Hlh. destruct (leb_number Hlh) as [Hlo Hhi]. split.
  - intros Hv. unfold clamp. cbn [Math_max Math_min float_Number].
    destruct (max_cases val lo Hv Hlo) as [[Em Hm]|[Em Hm]]; rewrite Em.
    + destruct (min_cases val hi Hv Hhi) as [[En Hn]|[En Hn]]; rewrite En.
      * split; assumption.
      * split; [assumption | apply leb_refl, Hhi].
    + destruct (min_cases lo hi Hlo Hhi) as [[En Hn]|[En Hn]]; rewrite En.
      * split; [apply leb_refl, Hlo | assumption].
      * split; [assumption | apply leb_refl, Hhi].
  - intros Hv. unfold clamp. cbn [Math_max Math_min float_Number].
    unfold Binary64.max at 1. rewrite (is_nan_number val), Hv. cbn [negb orb].
    reflexivity.
Qed.

(** X13.  [clamp] leaves a value that is in range as it is: when
    min <= val <= max the result equals val (as numbers: of two equal zeros
    it may return the other one), and it is val itself when val is not
    zero. *)
Theorem clamp_keeps_values_in_range (val lo hi : float) :
  (lo <=? val)%float = true -> (val <=? hi)%float = true ->
  (clamp val lo hi === val) = true /\
  ((val === lit 0) = false -> clamp val lo hi = val).
Proof.
  intros H1 H2. pose proof (clamp_fixes H1 H2) as E.
  split; [exact E|]. intros Z.
  destruct (leb_number H1) as [_ Hv].
  apply (nonzero_eqb_eq Hv Z E).
Qed.

(** X14.  The wheel changes the scale as the buttons do: a wheel event with
    a negative vertical delta leaves the scale [zoomIn] would leave, and
    one with any other delta (zero, positive, NaN) the scale [zoomOut]
    would; it always suppresses the default scrolling; and it leaves the
    whole state alone when it would zoom in at MAX_SCALE or out at
    MIN_SCALE. *)
Theorem wheel_changes_scale_like_the_buttons
    (env : Env float) (e : WheelEvent float) (s : State float) :
  scale (fst (onWheel env e s))
  = scale (if deltaY e <? lit 0 then zoomIn env s else zoomOut env s) /\
  snd (onWheel env e s) = true /\
  ((deltaY e <? lit 0) = true -> (scale s === MAX_SCALE) = true ->
   onWheel env e s = (s, true)) /\
  ((deltaY e <? lit 0) = false -> (scale s === MIN_SCALE) = true ->
   onWheel env e s = (s, true)).
Proof.
  split; [|split; [reflexivity|split]].
  - unfold onWheel, zoomIn, zoomOut. cbn [fst].
    destruct (deltaY e <? lit 0).
    + destruct (_ === _); cbn [negb]; trivial. rewrite !zoomAround_scale. reflexivity.
    + change (scale s + - ZOOM_STEP) with (scale s + - ZOOM_STEP)%float.
      rewrite add_opp. change (scale s - ZOOM_STEP)%float with (scale s - ZOOM_STEP).
      destruct (_ === _); cbn [negb]; trivial. rewrite !zoomAround_scale. reflexivity.
  - intros D H. apply (eqb_finite_eq MAX_SCALE_sf) in H.
    unfold onWheel. rewrite D, H.
    replace (clamp (MAX_SCALE + ZOOM_STEP) MIN_SCALE MAX_SCALE === MAX_SCALE)
      with true by (vm_compute; reflexivity).
    reflexivity.
  - intros D H. apply (eqb_finite_eq MIN_SCALE_sf) in H.
    unfold onWheel. rewrite D, H.
    replace (clamp (MIN_SCALE + - ZOOM_STEP) MIN_SCALE MAX_SCALE === MIN_SCALE)
      with true by (vm_compute; reflexivity).
    reflexivity.
Qed.

(** X15.  The distance of a pinch does not depend on the order in which the
    two touch points are listed. *)
Theorem getTouchDist_is_symmetric (a b : Touch float) :
  getTouchDist [a; b] = getTouchDist [b; a].
Proof.
  rewrite !getTouchDist_two. cbn [num_sub num_mul Number_Arith float_Number float_Arith].
  rewrite (sub_square_swap (touchX a) (touchX b)).
  rewrite (sub_square_swap (touchY a) (touchY b)). reflexivity.
Qed.

(** X16.  Two fingers that move without changing their distance do not
    zoom: when the scale is in range and the distance of the two touch
    points is the (finite) baseline, the two-finger move leaves the scale
    and the baseline as they are. *)
Theorem steady_pinch_keeps_scale
    (env : Env float) (e : TouchEvent float) (s : State float) (t0 t1 : Touch float) :
  touches e = [t0; t1] ->
  in_range (scale s) = true ->
  finite (lastPinchDist s) = true ->
  getTouchDist [t0; t1] = Ok (lastPinchDist s) ->
  exists s',
    onTouchMove env e s = Ok (s', true) /\
    scale s' = scale s /\ lastPinchDist s' = lastPinchDist s.
Proof.
  intros T R F G. rewrite (onTouchMove_two env e s T G).
  eexists. split; [reflexivity|]. split; [|reflexivity].
  destruct (in_range_finite_sf _ R) as (m & x & Sf).
  assert (D : (scale s + (lastPinchDist s - lastPinchDist s) / lit 200) = scale s).
  { eapply add_zero; [exact Sf | eapply zero_div_200, sub_diag, F]. }
  cbn [scale set_lastPinchDist]. rewrite zoomAround_scale, D.
  destruct (truthy (mapWrapper s)); trivial.
  apply andb_true_iff in R. destruct R as [R1 R2].
  exact (eqb_finite_eq Sf (clamp_fixes R1 R2)).
Qed.

End MoreOnBinary64.

(** ** Further properties of the mouse handlers *)

Section MouseHandlers.
Context {N : Type} {A : Arith N}.
Local Open Scope num_scope.

(** X17.  A release ends the drag: when [onMouseUp] returns, no drag is
    on, the transform is where the drag left it, and the mouse moves that
    follow change nothing. *)
Theorem release_ends_drag (s s1 : State N) (moves : list (MouseEvent N)) :
  onMouseUp s = Ok s1 ->
  isDragging s1 = false /\
  transform s1 = transform s /\
  fold_left (fun st m => onMouseMove m st) moves s1 = s1.
Proof.
  intros H.
  assert (D : isDragging s1 = false /\ transform s1 = transform s).
  { revert H. unfold onMouseUp, transform. cases s; intros [= <-]; split; reflexivity. }
  destruct D as [D T]. repeat split; trivial.
  induction moves as [|m moves IH]; cbn [fold_left]; trivial.
  unfold onMouseMove at 2. rewrite D. exact IH.
Qed.

(** X18.  The mouse handlers use the container unguarded.  [onMouseDown]
    throws exactly when the button is the primary one and the container is
    missing, and for another button it changes nothing and leaves the
    default action; [onMouseUp] throws exactly when a drag is on and the
    container is missing, and without a drag it changes nothing. *)
Theorem mouse_handlers_need_the_container (e : MouseEvent N) (s : State N) :
  (onMouseDown e s = TypeError <-> button e = 0%Z /\ mapContainer s = None) /\
  (button e <> 0%Z -> onMouseDown e s = Ok (s, false)) /\
  (onMouseUp s = TypeError <-> isDragging s = true /\ mapContainer s = None) /\
  (isDragging s = false -> onMouseUp s = Ok s).
Proof.
  unfold onMouseDown, onMouseUp.
  destruct (Z.eqb_spec (button e) 0) as [B|B]; cbn [negb];
    cases s; repeat split; try discriminate; try tauto; try congruence;
    try (intros [? ?]; congruence).
Qed.

End MouseHandlers.

(** ** The further properties at sample inputs *)

Section MoreWitnesses.
Import Binary64.
Local Open Scope num_scope.

Lemma handlers_keep_listeners_and_elements_witness :
  exists s',
    run Sample.session (boot Sample.mapPage) = Ok s' /\
    listeners s' = registered /\ resolved s' = (true, true, true).
Proof.
  eexists. split; [vm_compute; reflexivity|].
  apply (@handlers_keep_listeners_and_elements _ _ Sample.mapPage Sample.session).
  vm_compute; reflexivity.
Defined.

Lemma page_shows_the_transform_witness :
  truthy (doc_mapContainer Sample.mapPage) = true /\
  truthy (doc_mapWrapper Sample.mapPage) = true /\
  exists s',
    run Sample.session (boot Sample.mapPage) = Ok s' /\
    scale s' = 1.5%float /\ in_sync s'.
Proof.
  split; [reflexivity|]. split; [reflexivity|].
  eexists. split; [vm_compute; reflexivity|]. split; [reflexivity|].
  apply (@page_shows_the_transform _ _ Sample.mapPage Sample.session);
    [reflexivity | reflexivity | vm_compute; reflexivity].
Defined.

Lemma grabbing_while_dragging_witness :
  doc_mapContainer Sample.mapPage = Some (mkContainer false) /\
  Forall (fun p => touchless (snd p) = true) MoreSamples.mouseSession /\
  exists s',
    run MoreSamples.mouseSession (boot Sample.mapPage) = Ok s' /\
    isDragging s' = false /\
    mapContainer s' = Some (mkContainer (isDragging s')).
Proof.
  assert (F : Forall (fun p : Env float * Event float => touchless (snd p) = true)
                MoreSamples.mouseSession) by (repeat constructor).
  split; [reflexivity|]. split; [exact F|].
  eexists. split; [vm_compute; reflexivity|]. split; [reflexivity|].
  apply (@grabbing_while_dragging _ _ Sample.mapPage MoreSamples.mouseSession);
    [reflexivity | exact F | vm_compute; reflexivity].
Defined.

Lemma only_zoom_events_change_the_scale_witness :
  rescales (MouseMove Sample.move2) = false /\
  exists s',
    deliver Sample.env (MouseMove Sample.move2) MoreSamples.dragging = Ok s' /\
    transform s' = (1, 40, 50)%float /\
    scale s' = scale MoreSamples.dragging.
Proof.
  split; [reflexivity|].
  eexists. split; [vm_compute; reflexivity|]. split; [reflexivity|].
  apply (@only_zoom_events_change_the_scale _ _ Sample.env (MouseMove Sample.move2));
    [reflexivity | vm_compute; reflexivity].
Defined.

Lemma zoom_keeps_drag_witness :
  isDragging MoreSamples.dragging = true /\
  transform (zoomIn Sample.env MoreSamples.dragging) = (lit 1.2, -98, -66)%float /\
  gesture (zoomIn Sample.env MoreSamples.dragging) = gesture MoreSamples.dragging /\
  translateX (onMouseMove Sample.move2 (zoomIn Sample.env MoreSamples.dragging))
  = 40%float /\
  translateY (onMouseMove Sample.move2 (zoomIn Sample.env MoreSamples.dragging))
  = 50%float.
Proof.
  split; [reflexivity|]. split; [vm_compute; reflexivity|].
  destruct (@zoom_keeps_drag _ _ Sample.env MoreSamples.dragging
              (zoomIn Sample.env MoreSamples.dragging) (or_introl eq_refl))
    as [G M].
  split; [exact G|]. destruct (M eq_refl Sample.move2) as [HX HY].
  rewrite HX, HY. split; reflexivity.
Defined.

Lemma other_keys_are_ignored_witness :
  (~ In "a"%string handled_keys \/ truthy (mapContainer (boot Sample.mapPage)) = false) /\
  onKeyDown Sample.env (mkKey "a") (boot Sample.mapPage) = (boot Sample.mapPage, false).
Proof.
  assert (H : ~ In "a"%string handled_keys \/
              truthy (mapContainer (boot Sample.mapPage)) = false).
  { left. cbn. intros K. repeat (destruct K as [K|K]; [discriminate K|]). exact K. }
  split; [exact H|].
  exact (@other_keys_are_ignored _ _ Sample.env "a"%string (boot Sample.mapPage) H).
Defined.

Lemma touch_drag_follows_finger_witness :
  listening OnContainer "touchstart" (boot Sample.mapPage) = true /\
  listening OnContainer "touchmove" (boot Sample.mapPage) = true /\
  exists s',
    run ((Sample.env, TouchStart Sample.oneTouch)
           :: map (fun p => (fst p, TouchMove (snd p)))
                ([(Sample.env, MoreSamples.slide1)] ++ [(Sample.env, MoreSamples.slide2)]))
      (boot Sample.mapPage) = Ok s' /\
    translateX s' = 50%float /\ translateY s' = 60%float.
Proof.
  split; [reflexivity|]. split; [reflexivity|].
  destruct (@touch_drag_follows_finger _ _ (boot Sample.mapPage) Sample.env Sample.env
              Sample.oneTouch MoreSamples.slide2 (mkTouch 300 200)%float
              (mkTouch 350 260)%float [(Sample.env, MoreSamples.slide1)]
              eq_refl eq_refl eq_refl eq_refl ltac:(repeat constructor))
    as (s' & R & HX & HY).
  exists s'. split; [exact R|]. rewrite HX, HY. split; reflexivity.
Defined.

Lemma pinch_takes_over_the_drag_witness :
  touches Sample.twoTouches = [mkTouch 300 200; mkTouch 400 200]%float /\
  exists s1,
    onTouchStart Sample.twoTouches MoreSamples.dragging = Ok s1 /\
    isDragging MoreSamples.dragging = true /\ isDragging s1 = false /\
    lastPinchDist s1 = 100%float /\
    transform s1 = (1, 50, 30)%float /\
    onTouchMove Sample.env MoreSamples.slide1 s1 = Ok (s1, true).
Proof.
  split; [reflexivity|].
  destruct (@pinch_takes_over_the_drag _ _ MoreSamples.dragging Sample.twoTouches
              (mkTouch 300 200)%float (mkTouch 400 200)%float eq_refl)
    as (s1 & R & D & G & T & K).
  exists s1. split; [exact R|]. split; [reflexivity|]. split; [exact D|].
  split; [injection G as G'; symmetry; exact G'|].
  split; [rewrite T; reflexivity|].
  apply (K Sample.env Sample.oneTouch MoreSamples.slide1); [discriminate | reflexivity].
Defined.

Lemma clamp_bounds_witness :
  (@MIN_SCALE float _ <=? MAX_SCALE)%float = true /\
  clamp 7%float MIN_SCALE MAX_SCALE = 5%float /\
  clamp 0.25%float MIN_SCALE MAX_SCALE = 0.5%float /\
  (MIN_SCALE <=? clamp 7%float MIN_SCALE MAX_SCALE)%float = true /\
  (clamp 7%float MIN_SCALE MAX_SCALE <=? MAX_SCALE)%float = true /\
  clamp nan MIN_SCALE MAX_SCALE = nan.
Proof.
  assert (L : (@MIN_SCALE float _ <=? MAX_SCALE)%float = true) by reflexivity.
  split; [exact L|]. split; [reflexivity|]. split; [reflexivity|].
  destruct (@clamp_bounds 7%float (@MIN_SCALE float float_Number)
              (@MAX_SCALE float float_Number) L) as [B _].
  destruct (@clamp_bounds nan (@MIN_SCALE float float_Number)
              (@MAX_SCALE float float_Number) L) as [_ K].
  destruct (B eq_refl) as [B1 B2].
  split; [exact B1|]. split; [exact B2 | exact (K eq_refl)].
Defined.

Lemma clamp_keeps_values_in_range_witness :
  (@MIN_SCALE float _ <=? 1)%float = true /\ (1 <=? @MAX_SCALE float _)%float = true /\
  clamp 1%float MIN_SCALE MAX_SCALE = 1%float.
Proof.
  assert (L : (@MIN_SCALE float _ <=? 1)%float = true) by reflexivity.
  assert (U : (1 <=? @MAX_SCALE float _)%float = true) by reflexivity.
  split; [exact L|]. split; [exact U|].
  destruct (@clamp_keeps_values_in_range 1%float (@MIN_SCALE float float_Number)
              (@MAX_SCALE float float_Number) L U) as [_ K].
  apply K. reflexivity.
Defined.

Lemma steady_pinch_keeps_scale_witness :
  touches MoreSamples.shifted = [mkTouch 310 205; mkTouch 410 205]%float /\
  in_range (scale MoreSamples.pinching) = true /\
  finite (lastPinchDist MoreSamples.pinching) = true /\
  getTouchDist (touches MoreSamples.shifted) = Ok (lastPinchDist MoreSamples.pinching) /\
  exists s',
    onTouchMove Sample.env MoreSamples.shifted MoreSamples.pinching = Ok (s', true) /\
    scale s' = 1%float /\ lastPinchDist s' = 100%float.
Proof.
  assert (I : in_range (scale MoreSamples.pinching) = true) by reflexivity.
  assert (F : finite (lastPinchDist MoreSamples.pinching) = true) by reflexivity.
  assert (G : getTouchDist (touches MoreSamples.shifted)
              = Ok (lastPinchDist MoreSamples.pinching)) by reflexivity.
  split; [reflexivity|]. split; [exact I|]. split; [exact F|]. split; [exact G|].
  destruct (@steady_pinch_keeps_scale Sample.env MoreSamples.shifted MoreSamples.pinching
              (mkTouch 310 205)%float (mkTouch 410 205)%float
              eq_refl I F G) as (s' & R & S & L).
  exists s'. split; [exact R|]. rewrite S, L. split; reflexivity.
Defined.

Lemma release_ends_drag_witness :
  exists s1,
    onMouseUp MoreSamples.dragging = Ok s1 /\
    isDragging MoreSamples.dragging = true /\ isDragging s1 = false /\
    transform s1 = (1, 50, 30)%float /\
    fold_left (fun st m => onMouseMove m st) [Sample.move2; Sample.move1] s1 = s1.
Proof.
  eexists. split; [vm_compute; reflexivity|]. split; [reflexivity|].
  match goal with
  | |- isDragging ?s1 = false /\ _ =>
      assert (U : onMouseUp MoreSamples.dragging = Ok s1) by (vm_compute; reflexivity);
      destruct (@release_ends_drag _ _ MoreSamples.dragging s1
                  [Sample.move2; Sample.move1] U) as (D & T & M)
  end.
  split; [exact D|]. split; [rewrite T; reflexivity | exact M].
Defined.

End MoreWitnesses.
